(** * zeezee-cinema: the data-fetching and caching layer

    A shallow embedding of the Redux layer of the repository (the TMDB
    client of [services/movieService], the movie-cache actions and reducer,
    the movie-details actions and reducer) and the properties of its
    specification.

    JavaScript values are an inductive type; objects used as dictionaries
    ([details], [lastFetched], [loading], [reviews]) are finite maps from
    property keys; [async] thunks are trees of effects that a runner
    executes up to their next [await].

    What the embedding leaves out: numbers that are not integers; the
    properties an object inherits from [Object.prototype] (the keys of the
    dictionaries are identifiers of movies); the percent-encoding a URL
    applies when it is serialised (a URL is kept as its address and the list
    of its query pairs); the six slices of the store whose reducers live in
    other files. *)

From stdpp Require Import base strings pretty list gmap fin_maps.
From Stdlib Require Import ZArith Lia.

Set Default Proof Using "Type".
Set Warnings "-register-all".

(** ** JavaScript values *)

Module Js.

(** [JNum n] is the integer-valued number [n] (identifiers, page numbers,
    millisecond timestamps); [JNaN] is the result of arithmetic on
    [undefined].  An object is the list of its own enumerable properties in
    key order. *)
Inductive JsValue : Type :=
| JUndefined
| JNull
| JBool (b : bool)
| JNum (n : Z)
| JNaN
| JStr (s : string)
| JArr (items : list JsValue)
| JObj (fields : list (string * JsValue)).

(** A thrown [Error] object: its constructor name and its [message]. *)
Record JsError : Type := mkError { err_name : string; err_message : string }.

(** The result of evaluating an expression that may throw. *)
Inductive Completion (A : Type) : Type :=
| Normal (a : A)
| Abrupt (e : JsError).
Arguments Normal {A} a.
Arguments Abrupt {A} e.

#[global] Instance completion_ret : MRet Completion := @Normal.
#[global] Instance completion_bind : MBind Completion :=
  λ A B f c, match c with Normal a => f a | Abrupt e => Abrupt e end.

Definition TypeError (msg : string) : JsError := mkError "TypeError" msg.
Definition ReferenceError (msg : string) : JsError := mkError "ReferenceError" msg.

(** ToBoolean *)
Definition truthy (v : JsValue) : bool :=
  match v with
  | JUndefined | JNull | JNaN => false
  | JBool b => b
  | JNum n => negb (n =? 0)%Z
  | JStr s => negb (String.eqb s "")
  | JArr _ | JObj _ => true
  end.

Definition nullish (v : JsValue) : bool :=
  match v with JUndefined | JNull => true | _ => false end.

(** ToString.  An array is joined with commas, [null] and [undefined]
    elements giving the empty string. *)
Fixpoint to_string (v : JsValue) : string :=
  match v with
  | JUndefined => "undefined"
  | JNull => "null"
  | JBool true => "true"
  | JBool false => "false"
  | JNum n => pretty n
  | JNaN => "NaN"
  | JStr s => s
  | JArr items =>
      let elt x := if nullish x then "" else to_string x in
      (fix join (l : list JsValue) : string :=
         match l with
         | [] => ""
         | [x] => elt x
         | x :: rest => elt x +:+ "," +:+ join rest
         end) items
  | JObj _ => "[object Object]"
  end.

(** ToPropertyKey, for the computed keys [obj[k]] and [{ [k]: v }]. *)
Definition to_property_key (v : JsValue) : string := to_string v.

(** [Number.MAX_SAFE_INTEGER] and [Number.isSafeInteger(n)]: the integers
    that are numbers exactly, and whose ToString is their decimal numeral. *)
Definition MAX_SAFE_INTEGER : Z := 9007199254740991.

Definition isSafeInteger (n : Z) : bool := (Z.abs n <=? MAX_SAFE_INTEGER)%Z.

Fixpoint assoc (p : string) (fields : list (string * JsValue)) : option JsValue :=
  match fields with
  | [] => None
  | (q, v) :: rest => if String.eqb q p then Some v else assoc p rest
  end.

(** The index [i] below [len] whose canonical numeral is [p]. *)
Definition array_index (p : string) (len : nat) : option nat :=
  snd <$> list_find (λ i, pretty i = p) (seq 0 len).

Definition chars (s : string) : list JsValue :=
  (λ c, JStr (String c EmptyString)) <$> String.list_ascii_of_string s.

(** [v.p]: reading a property.  Reading from [undefined] or [null] throws. *)
Definition get_prop (v : JsValue) (p : string) : Completion JsValue :=
  match v with
  | JUndefined =>
      Abrupt (TypeError ("Cannot read properties of undefined (reading '" +:+ p +:+ "')"))
  | JNull =>
      Abrupt (TypeError ("Cannot read properties of null (reading '" +:+ p +:+ "')"))
  | JObj fields => Normal (default JUndefined (assoc p fields))
  | JArr items =>
      if String.eqb p "length" then Normal (JNum (Z.of_nat (length items)))
      else Normal (default JUndefined (i ← array_index p (length items); items !! i))
  | JStr s =>
      if String.eqb p "length" then Normal (JNum (Z.of_nat (String.length s)))
      else Normal (default JUndefined (i ← array_index p (String.length s); chars s !! i))
  | JBool _ | JNum _ | JNaN => Normal JUndefined
  end.

(** [{ ...o, [p]: v }] on an object: the property keeps its place when it
    exists and is added last otherwise. *)
Fixpoint set_field (p : string) (v : JsValue) (fields : list (string * JsValue))
  : list (string * JsValue) :=
  match fields with
  | [] => [(p, v)]
  | (q, w) :: rest => if String.eqb q p then (q, v) :: rest else (q, w) :: set_field p v rest
  end.

(** The own enumerable properties copied by a spread [{ ...v }]. *)
Definition spread_object (v : JsValue) : list (string * JsValue) :=
  match v with
  | JObj fields => fields
  | JArr items => imap (λ i x, (pretty i, x)) items
  | JStr s => imap (λ i x, (pretty i, x)) (chars s)
  | _ => []
  end.

(** The elements produced by a spread [[...v]] in an array literal. *)
Definition spread_iterable (v : JsValue) : Completion (list JsValue) :=
  match v with
  | JArr items => Normal items
  | JStr s => Normal (chars s)
  | _ => Abrupt (TypeError (to_string v +:+ " is not iterable"))
  end.

(** A parameter with a default value [f(x = d)]. *)
Definition default_param (v d : JsValue) : JsValue :=
  match v with JUndefined => d | _ => v end.

(** [a - b] on the numbers that occur here: timestamps and [undefined]. *)
Definition to_number (v : option Z) : JsValue :=
  match v with Some n => JNum n | None => JNaN end.

Definition js_sub (a b : JsValue) : JsValue :=
  match a, b with
  | JNum x, JNum y => JNum (x - y)
  | _, _ => JNaN
  end.

(** [a < b] on numbers; any comparison with [NaN] is false. *)
Definition js_lt (a b : JsValue) : bool :=
  match a, b with
  | JNum x, JNum y => (x <? y)%Z
  | _, _ => false
  end.

End Js.
Export Js.

(** ** The remote client ([services/movieService]) *)

Module MovieService.

(** [class TMDBApiBase]: the fields set by its constructor. *)
Record TMDBApiBase : Type :=
  { apiKey : string; baseUrl : string; imageBaseUrl : string }.

Definition new_TMDBApiBase (key : string) : TMDBApiBase :=
  {| apiKey := key;
     baseUrl := "https://api.themoviedb.org/3";
     imageBaseUrl := "https://image.tmdb.org/t/p" |}.

(** A [URL] object: the address it was built from and its [searchParams],
    the list of name/value pairs in the order they were appended.  The
    endpoints of the client carry no query part of their own. *)
Record URL : Type := { href : string; searchParams : list (string * string) }.

Definition new_URL (address : string) : URL :=
  {| href := address; searchParams := [] |}.

(** [url.searchParams.append(name, value)] *)
Definition searchParams_append (name : string) (value : JsValue) (u : URL) : URL :=
  {| href := href u; searchParams := searchParams u ++ [(name, to_string value)] |}.

(** What [makeRequest] hands to [fetch(url, options)]. *)
Record Request : Type :=
  { url : URL;
    method : string;
    headers : list (string * string);
    body : option JsValue }.

(** The body of the [forEach] over [Object.keys(params)]. *)
Definition append_param (params : list (string * JsValue)) (u : URL) (key : string) : URL :=
  let value := default JUndefined (assoc key params) in
  if negb (nullish value) then searchParams_append key value u else u.

Definition request_url (api : TMDBApiBase) (endpoint : string)
    (params : list (string * JsValue)) (meth : string) : URL :=
  let url := new_URL (baseUrl api +:+ endpoint) in
  if String.eqb meth "GET" then
    let url := searchParams_append "api_key" (JStr (apiKey api)) url in
    foldl (append_param params) url (params.*1)
  else url.

(** [makeRequest], up to its call of [fetch]. *)
Definition makeRequest (api : TMDBApiBase) (endpoint : string)
    (params : list (string * JsValue)) (meth : string) (payload : JsValue) : Request :=
  {| url := request_url api endpoint params meth;
     method := meth;
     headers := [("Content-Type", "application/json");
                 ("Authorization", "Bearer " +:+ apiKey api)];
     body := if truthy payload then Some payload else None |}.

(** What [fetch] settles with: a transport failure, or a response with its
    [ok] flag, its [status] and the outcome of [response.json()]. *)
Inductive FetchResult : Type :=
| NetworkFailure (e : JsError)
| HttpResponse (ok : bool) (status : Z) (json : Completion JsValue).

(** [makeRequest], from the settling of [fetch] on: the [catch] logs the
    error and throws it again. *)
Definition makeRequest_settle (r : FetchResult) : Completion JsValue :=
  match r with
  | NetworkFailure e => Abrupt e
  | HttpResponse ok status json =>
      if negb ok then Abrupt (mkError "Error" ("HTTP error! status: " +:+ pretty status))
      else json
  end.

(** [getMovieDetails(movieId, language = 'ko-KR', appendToResponse = null)] *)
Definition getMovieDetails (api : TMDBApiBase) (movieId language appendToResponse : JsValue)
  : Request :=
  let language := default_param language (JStr "ko-KR") in
  let appendToResponse := default_param appendToResponse JNull in
  let params := [("language", language)] in
  let params :=
    if truthy appendToResponse
    then set_field "append_to_response" appendToResponse params else params in
  makeRequest api ("/movie/" +:+ to_string movieId) params "GET" JNull.

(** [getMovieReviews(movieId, page = 1, language = 'en-US')] *)
Definition getMovieReviews (api : TMDBApiBase) (movieId page language : JsValue) : Request :=
  let page := default_param page (JNum 1) in
  let language := default_param language (JStr "en-US") in
  makeRequest api ("/movie/" +:+ to_string movieId +:+ "/reviews")
    [("page", page); ("language", language)] "GET" JNull.

(** [createUtils(apiKey).getImageUrl(path, size = 'w500')] *)
Definition getImageUrl (api : TMDBApiBase) (path size : JsValue) : JsValue :=
  let size := default_param size (JStr "w500") in
  if negb (truthy path) then JNull
  else JStr (imageBaseUrl api +:+ "/" +:+ to_string size +:+ to_string path).

(** The pair a key of [params] contributes to the query, if any. *)
Definition query_pair (params : list (string * JsValue)) (key : string)
  : option (string * string) :=
  let value := default JUndefined (assoc key params) in
  if nullish value then None else Some (key, to_string value).

End MovieService.

Export MovieService.

(** ** The endpoints of the client and its helpers *)

Module Endpoints.

(** [a || b] *)
Definition js_or (a b : JsValue) : JsValue := if truthy a then a else b.

(** [{ ...base, ...v }]: the own properties of [v] written over [base], one
    after the other. *)
Definition spread_onto (base : list (string * JsValue)) (v : JsValue)
  : list (string * JsValue) :=
  foldl (λ acc kv, set_field kv.1 kv.2 acc) base (spread_object v).

(** [searchMovies(query, page = 1, language = 'ko-KR', region = null,
    year = null, primaryReleaseYear = null, includeAdult = false)] *)
Definition searchMovies (api : TMDBApiBase)
    (query page language region year primaryReleaseYear includeAdult : JsValue) : Request :=
  let page := default_param page (JNum 1) in
  let language := default_param language (JStr "ko-KR") in
  let region := default_param region JNull in
  let year := default_param year JNull in
  let primaryReleaseYear := default_param primaryReleaseYear JNull in
  let includeAdult := default_param includeAdult (JBool false) in
  let params := [("query", query); ("page", page); ("language", language);
                 ("include_adult", includeAdult)] in
  let params := if truthy region then set_field "region" region params else params in
  let params := if truthy year then set_field "year" year params else params in
  let params :=
    if truthy primaryReleaseYear
    then set_field "primary_release_year" primaryReleaseYear params else params in
  makeRequest api "/search/movie" params "GET" JNull.

(** [getPopularMovies(page = 1, language = 'ko-KR', region = null)] *)
Definition getPopularMovies (api : TMDBApiBase) (page language region : JsValue) : Request :=
  let page := default_param page (JNum 1) in
  let language := default_param language (JStr "ko-KR") in
  let region := default_param region JNull in
  let params := [("page", page); ("language", language)] in
  let params := if truthy region then set_field "region" region params else params in
  makeRequest api "/movie/popular" params "GET" JNull.

(** [getTopRatedMovies(page = 1, language = 'ko-KR', region = null)] *)
Definition getTopRatedMovies (api : TMDBApiBase) (page language region : JsValue) : Request :=
  let page := default_param page (JNum 1) in
  let language := default_param language (JStr "ko-KR") in
  let region := default_param region JNull in
  let params := [("page", page); ("language", language)] in
  let params := if truthy region then set_field "region" region params else params in
  makeRequest api "/movie/top_rated" params "GET" JNull.

(** [getNowPlayingMovies(page = 1, language = 'ko-KR', region = null)] *)
Definition getNowPlayingMovies (api : TMDBApiBase) (page language region : JsValue)
  : Request :=
  let page := default_param page (JNum 1) in
  let language := default_param language (JStr "ko-KR") in
  let region := default_param region JNull in
  let params := [("page", page); ("language", language)] in
  let params := if truthy region then set_field "region" region params else params in
  makeRequest api "/movie/now_playing" params "GET" JNull.

(** [getUpcomingMovies(page = 1, language = 'ko-KR', region = null)] *)
Definition getUpcomingMovies (api : TMDBApiBase) (page language region : JsValue) : Request :=
  let page := default_param page (JNum 1) in
  let language := default_param language (JStr "ko-KR") in
  let region := default_param region JNull in
  let params := [("page", page); ("language", language)] in
  let params := if truthy region then set_field "region" region params else params in
  makeRequest api "/movie/upcoming" params "GET" JNull.

(** [rateMovie(movieId, rating, sessionId = null, guestSessionId = null)] *)
Definition rateMovie (api : TMDBApiBase) (movieId rating sessionId guestSessionId : JsValue)
  : Request :=
  let sessionId := default_param sessionId JNull in
  let guestSessionId := default_param guestSessionId JNull in
  let params := [] in
  let params := if truthy sessionId then set_field "session_id" sessionId params else params in
  let params :=
    if truthy guestSessionId
    then set_field "guest_session_id" guestSessionId params else params in
  makeRequest api ("/movie/" +:+ to_string movieId +:+ "/rating") params "POST"
    (JObj [("value", rating)]).

(** [discoverMovies(params = {})] *)
Definition discoverMovies (api : TMDBApiBase) (params : JsValue) : Request :=
  let params := default_param params (JObj []) in
  let defaultParams := [("language", JStr "ko-KR"); ("sort_by", JStr "popularity.desc");
                        ("page", JNum 1)] in
  makeRequest api "/discover/movie" (spread_onto defaultParams params) "GET" JNull.

(** [discoverTVShows(params = {})] *)
Definition discoverTVShows (api : TMDBApiBase) (params : JsValue) : Request :=
  let params := default_param params (JObj []) in
  let defaultParams := [("language", JStr "ko-KR"); ("sort_by", JStr "popularity.desc");
                        ("page", JNum 1)] in
  makeRequest api "/discover/tv" (spread_onto defaultParams params) "GET" JNull.

(** The helpers of [createUtils] that call [this.getImageUrl]. *)
Definition getBackdropUrl (api : TMDBApiBase) (path size : JsValue) : JsValue :=
  getImageUrl api path (default_param size (JStr "w1280")).

Definition getPosterUrl (api : TMDBApiBase) (path size : JsValue) : JsValue :=
  getImageUrl api path (default_param size (JStr "w500")).

Definition getProfileUrl (api : TMDBApiBase) (path size : JsValue) : JsValue :=
  getImageUrl api path (default_param size (JStr "w185")).

Definition getLogoUrl (api : TMDBApiBase) (path size : JsValue) : JsValue :=
  getImageUrl api path (default_param size (JStr "w185")).

Definition getStillUrl (api : TMDBApiBase) (path size : JsValue) : JsValue :=
  getImageUrl api path (default_param size (JStr "w300")).

(** [getImageSizes()] *)
Definition getImageSizes : JsValue :=
  JObj [("backdrop_sizes", JArr [JStr "w300"; JStr "w780"; JStr "w1280"; JStr "original"]);
        ("logo_sizes", JArr [JStr "w45"; JStr "w92"; JStr "w154"; JStr "w185"; JStr "w300";
                             JStr "w500"; JStr "original"]);
        ("poster_sizes", JArr [JStr "w92"; JStr "w154"; JStr "w185"; JStr "w342"; JStr "w500";
                               JStr "w780"; JStr "original"]);
        ("profile_sizes", JArr [JStr "w45"; JStr "w185"; JStr "h632"; JStr "original"]);
        ("still_sizes", JArr [JStr "w92"; JStr "w185"; JStr "w300"; JStr "original"])].

End Endpoints.

(** ** Actions *)

(** The action-type constants are imported from [store/types/actionTypes],
    a file this development does not have: their values are a parameter
    of it.  [distinct] says that no two of them are equal. *)
Class ActionTypes : Type :=
  { FETCH_MOVIE_DETAIL_REQUEST : string;
    FETCH_MOVIE_DETAIL_SUCCESS : string;
    FETCH_MOVIE_DETAIL_FAILURE : string;
    CLEAR_MOVIE_CACHE : string;
    REMOVE_FROM_CACHE : string;
    FETCH_MOVIE_FULL_DETAILS_REQUEST : string;
    FETCH_MOVIE_FULL_DETAILS_SUCCESS : string;
    FETCH_MOVIE_FULL_DETAILS_FAILURE : string;
    FETCH_MORE_REVIEWS_REQUEST : string;
    FETCH_MORE_REVIEWS_SUCCESS : string;
    FETCH_MORE_REVIEWS_FAILURE : string;
    CLEAR_CURRENT_MOVIE : string }.

Definition all_types (T : ActionTypes) : list string :=
  [ FETCH_MOVIE_DETAIL_REQUEST; FETCH_MOVIE_DETAIL_SUCCESS; FETCH_MOVIE_DETAIL_FAILURE;
    CLEAR_MOVIE_CACHE; REMOVE_FROM_CACHE;
    FETCH_MOVIE_FULL_DETAILS_REQUEST; FETCH_MOVIE_FULL_DETAILS_SUCCESS;
    FETCH_MOVIE_FULL_DETAILS_FAILURE;
    FETCH_MORE_REVIEWS_REQUEST; FETCH_MORE_REVIEWS_SUCCESS; FETCH_MORE_REVIEWS_FAILURE;
    CLEAR_CURRENT_MOVIE ].

Definition distinct (T : ActionTypes) : Prop := NoDup (all_types T).

(** The usual choice: every constant is its own name. *)
Definition named_types : ActionTypes :=
  {| FETCH_MOVIE_DETAIL_REQUEST := "FETCH_MOVIE_DETAIL_REQUEST";
     FETCH_MOVIE_DETAIL_SUCCESS := "FETCH_MOVIE_DETAIL_SUCCESS";
     FETCH_MOVIE_DETAIL_FAILURE := "FETCH_MOVIE_DETAIL_FAILURE";
     CLEAR_MOVIE_CACHE := "CLEAR_MOVIE_CACHE";
     REMOVE_FROM_CACHE := "REMOVE_FROM_CACHE";
     FETCH_MOVIE_FULL_DETAILS_REQUEST := "FETCH_MOVIE_FULL_DETAILS_REQUEST";
     FETCH_MOVIE_FULL_DETAILS_SUCCESS := "FETCH_MOVIE_FULL_DETAILS_SUCCESS";
     FETCH_MOVIE_FULL_DETAILS_FAILURE := "FETCH_MOVIE_FULL_DETAILS_FAILURE";
     FETCH_MORE_REVIEWS_REQUEST := "FETCH_MORE_REVIEWS_REQUEST";
     FETCH_MORE_REVIEWS_SUCCESS := "FETCH_MORE_REVIEWS_SUCCESS";
     FETCH_MORE_REVIEWS_FAILURE := "FETCH_MORE_REVIEWS_FAILURE";
     CLEAR_CURRENT_MOVIE := "CLEAR_CURRENT_MOVIE" |}.

(** A Redux action [{ type, payload }]; [payload] is [undefined] when the
    action has none. *)
Record Action : Type := mkAction { type : string; payload : JsValue }.

(** [switch (x) { case c: ... }] compares with [===]. *)
Notation "x === c" := (String.eqb x c) (at level 70, no associativity).

(** ** The movie cache: reducer and action creators *)

Module MovieCache.
Section WithTypes.
Context {T : ActionTypes}.

Record State : Type :=
  { details : gmap string JsValue;
    lastFetched : gmap string Z;
    loading : gmap string bool;
    error : JsValue }.

Definition initialState : State :=
  {| details := ∅; lastFetched := ∅; loading := ∅; error := JNull |}.

Definition CACHE_DURATION : Z := 3600000.

Definition fetchMovieDetailRequest (movieId : JsValue) : Action :=
  mkAction FETCH_MOVIE_DETAIL_REQUEST (JObj [("movieId", movieId)]).

Definition fetchMovieDetailSuccess (movieId data : JsValue) : Action :=
  mkAction FETCH_MOVIE_DETAIL_SUCCESS (JObj [("movieId", movieId); ("data", data)]).

Definition fetchMovieDetailFailure (movieId err : JsValue) : Action :=
  mkAction FETCH_MOVIE_DETAIL_FAILURE (JObj [("movieId", movieId); ("error", err)]).

Definition clearMovieCache : Action := mkAction CLEAR_MOVIE_CACHE JUndefined.

Definition removeFromCache (movieId : JsValue) : Action :=
  mkAction REMOVE_FROM_CACHE movieId.

(** [movieCacheReducer]: [now] is the value [Date.now()] has while the
    reducer runs.  The cases are tried in the order of the [switch]. *)
Definition movieCacheReducer (now : Z) (state : State) (action : Action)
  : Completion State :=
  if type action === FETCH_MOVIE_DETAIL_REQUEST then
    movieId ← get_prop (payload action) "movieId";
    mret {| details := details state;
            lastFetched := lastFetched state;
            loading := <[to_property_key movieId := true]> (loading state);
            error := JNull |}
  else if type action === FETCH_MOVIE_DETAIL_SUCCESS then
    movieId ← get_prop (payload action) "movieId";
    mret {| details := <[to_property_key movieId := JNum now]> (details state);
            lastFetched := lastFetched state;
            loading := <[to_property_key movieId := false]> (loading state);
            error := error state |}
  else if type action === FETCH_MOVIE_DETAIL_FAILURE then
    movieId ← get_prop (payload action) "movieId";
    err ← get_prop (payload action) "error";
    mret {| details := details state;
            lastFetched := lastFetched state;
            loading := <[to_property_key movieId := false]> (loading state);
            error := err |}
  else if type action === CLEAR_MOVIE_CACHE then
    mret {| details := ∅;
            lastFetched := ∅;
            loading := loading state;
            error := error state |}
  else if type action === REMOVE_FROM_CACHE then
    mret {| details := delete (to_property_key (payload action)) (details state);
            lastFetched := delete (to_property_key (payload action)) (lastFetched state);
            loading := loading state;
            error := error state |}
  else mret state.

End WithTypes.
End MovieCache.

(** ** The movie details: reducer *)

Module MovieDetails.
Section WithTypes.
Context {T : ActionTypes}.

(** One entry of [state.reviews]: the paged reviews of a movie. *)
Record Reviews : Type :=
  { items : JsValue; page : JsValue; totalPages : JsValue }.

(** [reviesLoading] is the property the request case adds to the state
    object: [None] while the state has no such property. *)
Record State : Type :=
  { current : JsValue;
    reviews : gmap string Reviews;
    loading : bool;
    reviewsLoading : bool;
    error : JsValue;
    reviesLoading : option bool }.

Definition initialState : State :=
  {| current := JNull; reviews := ∅; loading := false; reviewsLoading := false;
     error := JNull; reviesLoading := None |}.

(** The body of the first [case FETCH_MORE_REVIEWS_SUCCESS:]. *)
Definition case_store_details (state : State) (action : Action) : Completion State :=
  id ← get_prop (payload action) "id";
  revs ← get_prop (payload action) "reviews";
  total ← get_prop (payload action) "reviewsTotalPages";
  mret {| current := payload action;
          reviews := <[to_property_key id :=
                        {| items := revs; page := JNum 1; totalPages := total |}]>
                     (reviews state);
          loading := false;
          reviewsLoading := reviewsLoading state;
          error := error state;
          reviesLoading := reviesLoading state |}.

(** The body of the second [case FETCH_MORE_REVIEWS_SUCCESS:]. *)
Definition case_append_reviews (state : State) (action : Action) : Completion State :=
  movieId ← get_prop (payload action) "movieId";
  revs ← get_prop (payload action) "reviews";
  pg ← get_prop (payload action) "page";
  total ← get_prop (payload action) "totalPages";
  let stored := default JUndefined (items <$> reviews state !! to_property_key movieId) in
  let existingReviews := if truthy stored then stored else JArr [] in
  old ← spread_iterable existingReviews;
  new ← spread_iterable revs;
  mret {| current := current state;
          reviews := <[to_property_key movieId :=
                        {| items := JArr (old ++ new); page := pg; totalPages := total |}]>
                     (reviews state);
          loading := loading state;
          reviewsLoading := false;
          error := error state;
          reviesLoading := reviesLoading state |}.

(** [movieDetailsReducer].  The [switch] has two clauses with the label
    [FETCH_MORE_REVIEWS_SUCCESS] and none with
    [FETCH_MOVIE_FULL_DETAILS_SUCCESS]; the clauses are tried in order. *)
Definition movieDetailsReducer (state : State) (action : Action) : Completion State :=
  if type action === FETCH_MOVIE_FULL_DETAILS_REQUEST then
    mret {| current := current state; reviews := reviews state;
            loading := true;
            reviewsLoading := reviewsLoading state;
            error := JNull;
            reviesLoading := reviesLoading state |}
  else if type action === FETCH_MORE_REVIEWS_SUCCESS then
    case_store_details state action
  else if type action === FETCH_MOVIE_FULL_DETAILS_FAILURE then
    err ← get_prop (payload action) "error";
    mret {| current := current state; reviews := reviews state;
            loading := false;
            reviewsLoading := reviewsLoading state;
            error := err;
            reviesLoading := reviesLoading state |}
  else if type action === FETCH_MORE_REVIEWS_REQUEST then
    mret {| current := current state; reviews := reviews state;
            loading := loading state;
            reviewsLoading := reviewsLoading state;
            error := error state;
            reviesLoading := Some true |}
  else if type action === FETCH_MORE_REVIEWS_SUCCESS then
    case_append_reviews state action
  else if type action === FETCH_MORE_REVIEWS_FAILURE then
    mret {| current := current state; reviews := reviews state;
            loading := loading state;
            reviewsLoading := false;
            error := error state;
            reviesLoading := reviesLoading state |}
  else if type action === CLEAR_CURRENT_MOVIE then
    mret {| current := JNull; reviews := reviews state;
            loading := loading state;
            reviewsLoading := reviewsLoading state;
            error := error state;
            reviesLoading := reviesLoading state |}
  else mret state.

(** The action [fetchMoreReviews] dispatches when its request succeeds
    (the object literal of its [try] block). *)
Definition moreReviewsSuccess (movieId revs pg total : JsValue) : Action :=
  mkAction FETCH_MORE_REVIEWS_SUCCESS
    (JObj [("movieId", movieId); ("reviews", revs); ("page", pg); ("totalPages", total)]).

(** [store.dispatch(action)] seen from this slice: a reducer that throws
    leaves the state as it was. *)
Definition step (state : State) (action : Action) : State :=
  match movieDetailsReducer state action with
  | Normal state' => state'
  | Abrupt _ => state
  end.

(** The states the slice can be in: the store is created with
    [initialState] and changes by dispatching actions only. *)
Inductive reachable : State → Prop :=
| reachable_init : reachable initialState
| reachable_step state action state' :
    reachable state →
    movieDetailsReducer state action = Normal state' →
    reachable state'.

(** Merging the pages [pages] of the reviews of [movieId] in order, page
    [i] carrying the number [first + i] and [total] as the page count. *)
Fixpoint merge_pages (movieId : JsValue) (total : Z) (first : Z)
    (pages : list (list JsValue)) (state : State) : State :=
  match pages with
  | [] => state
  | revs :: rest =>
      merge_pages movieId total (first + 1) rest
        (step state (moreReviewsSuccess movieId (JArr revs) (JNum first) (JNum total)))
  end.

(** The state the second clause leaves when the stored reviews are [old]. *)
Definition appended (s : State) (movieId : JsValue) (old revs : list JsValue) (pg total : JsValue)
  : State :=
  {| current := current s;
     reviews := <[to_property_key movieId :=
                   {| items := JArr (old ++ revs); page := pg; totalPages := total |}]>
                (reviews s);
     loading := loading s;
     reviewsLoading := false;
     error := error s;
     reviesLoading := reviesLoading s |}.

(** The same merge performed by the second clause alone. *)
Fixpoint append_pages (movieId : JsValue) (total : Z) (first : Z)
    (pages : list (list JsValue)) (state : State) : Completion State :=
  match pages with
  | [] => mret state
  | revs :: rest =>
      state' ← case_append_reviews state
                 (moreReviewsSuccess movieId (JArr revs) (JNum first) (JNum total));
      append_pages movieId total (first + 1) rest state'
  end.

End WithTypes.
End MovieDetails.

(** ** The store and the thunks *)

(** How a free identifier of a module is resolved when the thunk runs.  The
    module of [fetchMovieDetail] neither declares nor imports [dispatch]: the
    parameter of the inner function is named [dispatchEvent].  The name is
    then looked up in the global environment: [NotDefined] is the case of a
    browser, where the call throws a [ReferenceError]; [IsStoreDispatch]
    is the case of an environment that binds it to the store's [dispatch]. *)
Inductive Binding : Type := NotDefined | IsStoreDispatch.

Definition browser_globals : string → Binding := λ _, NotDefined.
Definition dispatch_bound : string → Binding := λ _, IsStoreDispatch.

Module Store.
Section WithTypes.
Context {T : ActionTypes}.

(** The two slices of [combineReducers] whose reducers are among the
    sources; the other six are independent of them. *)
Record RootState : Type :=
  { movieCache : MovieCache.State; movieDetails : MovieDetails.State }.

Definition initialState : RootState :=
  {| movieCache := MovieCache.initialState; movieDetails := MovieDetails.initialState |}.

Definition rootReducer (now : Z) (state : RootState) (action : Action)
  : Completion RootState :=
  mc ← MovieCache.movieCacheReducer now (movieCache state) action;
  md ← MovieDetails.movieDetailsReducer (movieDetails state) action;
  mret {| movieCache := mc; movieDetails := md |}.

(** The body of an [async] thunk: a tree of the effects it performs.  An
    effect that may throw has two continuations, the second one being the
    enclosing [catch] ([Throw] outside a [try]). *)
Inductive Thunk : Type :=
| Return (v : JsValue)
| Throw (e : JsError)
| GetState (k : RootState → Thunk)
| DateNow (k : Z → Thunk)
| Dispatch (a : Action) (k : Thunk) (h : JsError → Thunk)
| CallFree (x : string) (a : Action) (k : Thunk) (h : JsError → Thunk)
| Await (req : Request) (k : JsValue → Thunk) (h : JsError → Thunk).

(** The store, the clock read by [Date.now()], and the requests handed to
    [fetch] so far, oldest first. *)
Record World : Type :=
  { store : RootState; clock : Z; network : list Request }.

Definition set_store (s : RootState) (w : World) : World :=
  {| store := s; clock := clock w; network := network w |}.

Definition set_clock (t : Z) (w : World) : World :=
  {| store := store w; clock := t; network := network w |}.

Definition send (req : Request) (w : World) : World :=
  {| store := store w; clock := clock w; network := network w ++ [req] |}.

(** The state of the promise of a thunk: settled, or waiting at an
    [await] for the answer to [req]. *)
Inductive Outcome : Type :=
| Resolved (v : JsValue)
| Rejected (e : JsError)
| Suspended (req : Request) (k : JsValue → Thunk) (h : JsError → Thunk).

Section Run.
Variable genv : string → Binding.

(** [store.dispatch(action)]: a reducer that throws leaves the state as
    it was. *)
Definition dispatch (a : Action) (w : World) : Completion World :=
  s ← rootReducer (clock w) (store w) a; mret (set_store s w).

(** Run a thunk to its next [await]. *)
Fixpoint run (t : Thunk) (w : World) : Outcome * World :=
  match t with
  | Return v => (Resolved v, w)
  | Throw e => (Rejected e, w)
  | GetState k => run (k (store w)) w
  | DateNow k => run (k (clock w)) w
  | Dispatch a k h =>
      match dispatch a w with
      | Normal w' => run k w'
      | Abrupt e => run (h e) w
      end
  | CallFree x a k h =>
      match genv x with
      | NotDefined => run (h (ReferenceError (x +:+ " is not defined"))) w
      | IsStoreDispatch =>
          match dispatch a w with
          | Normal w' => run k w'
          | Abrupt e => run (h e) w
          end
      end
  | Await req k h => (Suspended req k h, send req w)
  end.

(** The answer [r] to the request of a suspended thunk arrives. *)
Definition settle (o : Outcome) (r : FetchResult) (w : World) : Outcome * World :=
  match o with
  | Suspended _ k h =>
      match makeRequest_settle r with
      | Normal v => run (k v) w
      | Abrupt e => run (h e) w
      end
  | _ => (o, w)
  end.
End Run.

(** *** Thunks *)
Section Thunks.
Variable tmdb : TMDBApiBase.

(** The [catch] block of [fetchMovieDetail]. *)
Definition fetchMovieDetail_catch (movieId : JsValue) (error : JsError) : Thunk :=
  CallFree "dispatch"
    (MovieCache.fetchMovieDetailFailure movieId (JStr (err_message error)))
    (Throw error) Throw.

(** Its [try] block, from the answer to the [await] on. *)
Definition fetchMovieDetail_then (movieId data : JsValue) : Thunk :=
  CallFree "dispatch" (MovieCache.fetchMovieDetailSuccess movieId data)
    (Return data) (fetchMovieDetail_catch movieId).

(** The test of its [if]: no forced refresh, a truthy cached value, and
    [Date.now() - lastFetched < CACHE_DURATION]. *)
Definition cache_test (state : RootState) (now : Z) (movieId forceRefresh : JsValue)
  : bool :=
  let cached :=
    default JUndefined
      (MovieCache.details (movieCache state) !! to_property_key movieId) in
  let lastFetched :=
    to_number (MovieCache.lastFetched (movieCache state) !! to_property_key movieId) in
  negb (truthy forceRefresh) && truthy cached
  && js_lt (js_sub (JNum now) lastFetched) (JNum MovieCache.CACHE_DURATION).

(** [fetchMovieDetail({ movieId, forceRefresh = false })].  The inner
    function takes [(dispatchEvent, getState)] and calls [dispatch]. *)
Definition fetchMovieDetail (movieId forceRefresh : JsValue) : Thunk :=
  let forceRefresh := default_param forceRefresh (JBool false) in
  GetState (λ state,
    let cached :=
      default JUndefined
        (MovieCache.details (movieCache state) !! to_property_key movieId) in
    DateNow (λ now,
      if cache_test state now movieId forceRefresh
      then Return cached
      else
        CallFree "dispatch" (MovieCache.fetchMovieDetailRequest movieId)
          (Await (getMovieDetails tmdb movieId (JStr "ko-KR") (JStr "credits,videos,images"))
             (fetchMovieDetail_then movieId)
             (fetchMovieDetail_catch movieId))
          Throw)).

(** The [catch] block of [fetchMovieFullDetails]. *)
Definition fetchMovieFullDetails_catch (error : JsError) : Thunk :=
  Dispatch (mkAction FETCH_MOVIE_FULL_DETAILS_FAILURE
              (JObj [("error", JStr (err_message error))]))
    (Return JUndefined) Throw.

(** Its [try] block, from the answer to the second [await] on. *)
Definition fetchMovieFullDetails_reviews (movieDetails revs : JsValue) : Thunk :=
  match
    results ← get_prop revs "results";
    total ← get_prop revs "total_pages";
    mret (set_field "reviewsTotalPages" total
            (set_field "reviews" results (spread_object movieDetails)))
  with
  | Normal fields =>
      Dispatch (mkAction FETCH_MOVIE_FULL_DETAILS_SUCCESS (JObj fields))
        (Return JUndefined) fetchMovieFullDetails_catch
  | Abrupt e => fetchMovieFullDetails_catch e
  end.

(** Its [try] block, from the answer to the first [await] on. *)
Definition fetchMovieFullDetails_details (movieId movieDetails : JsValue) : Thunk :=
  Await (getMovieReviews tmdb movieId (JNum 1) JUndefined)
    (fetchMovieFullDetails_reviews movieDetails)
    fetchMovieFullDetails_catch.

(** [fetchMovieFullDetails(movieId)] *)
Definition fetchMovieFullDetails (movieId : JsValue) : Thunk :=
  Dispatch (mkAction FETCH_MOVIE_FULL_DETAILS_REQUEST JUndefined)
    (Await (getMovieDetails tmdb movieId (JStr "ko-KR")
              (JStr "credits,videos,images,keywords,release_dates"))
       (fetchMovieFullDetails_details movieId)
       fetchMovieFullDetails_catch)
    Throw.

(** The [catch] block of [fetchMoreReviews]. *)
Definition fetchMoreReviews_catch (error : JsError) : Thunk :=
  Dispatch (mkAction FETCH_MORE_REVIEWS_FAILURE
              (JObj [("error", JStr (err_message error))]))
    (Return JUndefined) Throw.

(** Its [try] block, from the answer to the [await] on. *)
Definition fetchMoreReviews_then (movieId response : JsValue) : Thunk :=
  match
    results ← get_prop response "results";
    p ← get_prop response "page";
    total ← get_prop response "total_pages";
    mret (MovieDetails.moreReviewsSuccess movieId results p total)
  with
  | Normal action => Dispatch action (Return JUndefined) fetchMoreReviews_catch
  | Abrupt e => fetchMoreReviews_catch e
  end.

(** [fetchMoreReviews({ movieId, page })] *)
Definition fetchMoreReviews (movieId pg : JsValue) : Thunk :=
  Dispatch (mkAction FETCH_MORE_REVIEWS_REQUEST JUndefined)
    (Await (getMovieReviews tmdb movieId pg JUndefined)
       (fetchMoreReviews_then movieId)
       fetchMoreReviews_catch)
    Throw.
End Thunks.

(** The states of the store: created with [initialState], changed by
    dispatching actions, each at some time of the clock. *)
Inductive reachable : RootState → Prop :=
| reachable_init : reachable initialState
| reachable_dispatch state now action state' :
    reachable state →
    rootReducer now state action = Normal state' →
    reachable state'.

(** Two worlds with the same cache entries and the same time. *)
Definition same_cache (w w' : World) : Prop :=
  MovieCache.details (movieCache (store w')) = MovieCache.details (movieCache (store w))
  ∧ MovieCache.lastFetched (movieCache (store w'))
    = MovieCache.lastFetched (movieCache (store w))
  ∧ clock w' = clock w.

(** The request a promise is waiting for, if any. *)
Definition requests_of (o : Outcome) : list Request :=
  match o with
  | Suspended req _ _ => [req]
  | _ => []
  end.

(** [n] calls of the same thunk issued one after the other, none of them
    completing in between: each runs to its first [await]. *)
Fixpoint issue (genv : string → Binding) (t : Thunk) (n : nat) (w : World)
  : list Outcome * World :=
  match n with
  | O => ([], w)
  | S n' =>
      let '(o, w') := run genv t w in
      let '(os, w'') := issue genv t n' w' in
      (o :: os, w'')
  end.

End WithTypes.
End Store.

(** ** The banner carousel ([component/MovieList.jsx/Carousel.jsx]) *)

Module BannerCarousel.
Import Endpoints.

(** The state of the component: [banners], [loading] and [error]. *)
Record State : Type :=
  { banners : list JsValue; loading : bool; error : JsValue }.

(** [useState([])], [useState(true)], [useState(null)] *)
Definition initialState : State :=
  {| banners := []; loading := true; error := JNull |}.

(** [array.filter(f)] for a callback that reads properties and may throw. *)
Fixpoint filter_array (f : JsValue → Completion JsValue) (l : list JsValue)
  : Completion (list JsValue) :=
  match l with
  | [] => mret []
  | x :: rest =>
      keep ← f x;
      kept ← filter_array f rest;
      mret (if truthy keep then x :: kept else kept)
  end.

(** [(movie) => movie.backdrop_path] *)
Definition has_backdrop (movie : JsValue) : Completion JsValue :=
  get_prop movie "backdrop_path".

(** The object the [map] callback builds for a movie. *)
Definition banner (movie : JsValue) : Completion JsValue :=
  id ← get_prop movie "id";
  backdrop ← get_prop movie "backdrop_path";
  title ← get_prop movie "title";
  overview ← get_prop movie "overview";
  release_date ← get_prop movie "release_date";
  vote_average ← get_prop movie "vote_average";
  mret (JObj [("id", id);
              ("img", JStr ("https://image.tmdb.org/t/p/w1280" +:+ to_string backdrop));
              ("mobileImg", JStr ("https://image.tmdb.org/t/p/w780" +:+ to_string backdrop));
              ("alt", js_or title (JStr "영화 포스터"));
              ("title", js_or title (JStr "제목 없음"));
              ("overview", js_or overview (JStr "줄거리가 없습니다."));
              ("releaseDate", js_or release_date (JStr ""));
              ("voteAverage", js_or vote_average (JNum 0))]).

(** [Array.isArray(v)] *)
Definition isArray (v : JsValue) : bool :=
  match v with JArr _ => true | _ => false end.

Definition elements (v : JsValue) : list JsValue :=
  match v with JArr l => l | _ => [] end.

(** The [try] block of [fetchMovies] from the answer of [getUpcomingMovies]
    on: the banners it hands to [setBanners], or the error it throws. *)
Definition movieBanners (response : JsValue) : Completion (list JsValue) :=
  results ← get_prop response "results";
  let popularMovies := js_or (js_or results response) (JArr []) in
  if negb (isArray popularMovies)
  then Abrupt (mkError "Error" "유효하지 않은 API 응답입니다")
  else
    kept ← filter_array has_backdrop (elements popularMovies);
    movieBanners ← mapM banner (take 5 kept);
    if (length movieBanners =? 0)%nat
    then Abrupt (mkError "Error" "표시할 영화가 없습니다")
    else mret movieBanners.

(** [fetchMovies], up to its [await]: the state it sets and the request it
    sends. *)
Definition fetchMovies_start (api : TMDBApiBase) (state : State) : State * Request :=
  ({| banners := banners state; loading := true; error := JNull |},
   getUpcomingMovies api JUndefined JUndefined JUndefined).

(** [fetchMovies], from the answer on: [setBanners] or the [catch], then the
    [finally]. *)
Definition fetchMovies_settle (state : State) (r : FetchResult) : State :=
  match makeRequest_settle r ≫= movieBanners with
  | Normal movieBanners =>
      {| banners := movieBanners; loading := false; error := error state |}
  | Abrupt err =>
      {| banners := banners state;
         loading := false;
         error := js_or (JStr (err_message err)) (JStr "영화 데이터를 로드할 수 없습니다.") |}
  end.

End BannerCarousel.

(** * Properties *)

(** ** The remote client *)

Section RemoteClient.
Implicit Types (params : list (string * JsValue)) (u : URL) (api : TMDBApiBase).

Lemma assoc_Some_elem params k v : assoc k params = Some v → (k, v) ∈ params.
Proof.
  induction params as [|[q w] rest IH]; simpl; [done|].
  destruct (String.eqb_spec q k) as [Heq|_].
  - intros Hv. injection Hv as Hv. subst. left.
  - intros H. right. auto.
Qed.

Lemma assoc_None params k : assoc k params = None ↔ k ∉ params.*1.
Proof.
  induction params as [|[q w] rest IH]; simpl.
  - split; [intros _; apply not_elem_of_nil|done].
  - rewrite not_elem_of_cons. destruct (String.eqb_spec q k) as [->|Hne].
    + split; [done|]. intros [? _]. done.
    + rewrite IH. split; [by intros ?; split; [congruence|]|by intros []].
Qed.

Lemma assoc_NoDup params k v :
  NoDup (params.*1) → (k, v) ∈ params → assoc k params = Some v.
Proof.
  induction params as [|[q w] rest IH]; simpl.
  - intros _ H. by apply elem_of_nil in H.
  - rewrite NoDup_cons. intros [Hq Hnd] [[= -> ->]|Hin]%elem_of_cons.
    + by rewrite String.eqb_refl.
    + destruct (String.eqb_spec q k) as [->|_]; [|by apply IH].
      exfalso. apply Hq. apply list_elem_of_fmap. by exists (k, v).
Qed.

Lemma foldl_append_param params keys u :
  searchParams (foldl (append_param params) u keys)
  = searchParams u ++ omap (query_pair params) keys.
Proof.
  revert u. induction keys as [|key keys IH]; intros u; simpl.
  - by rewrite app_nil_r.
  - rewrite IH. unfold append_param, query_pair.
    destruct (nullish _); simpl; [done|]. by rewrite <- app_assoc.
Qed.

Lemma request_url_GET api endpoint params :
  searchParams (request_url api endpoint params "GET")
  = ("api_key", apiKey api) :: omap (query_pair params) (params.*1).
Proof. unfold request_url. simpl. by rewrite foldl_append_param. Qed.

Lemma elem_of_query params k s :
  (k, s) ∈ omap (query_pair params) (params.*1)
  ↔ ∃ v, assoc k params = Some v ∧ nullish v = false ∧ s = to_string v.
Proof.
  rewrite list_elem_of_omap. unfold query_pair. split.
  - intros (key & Hkey & Hq).
    destruct (assoc key params) as [v|] eqn:Hv; simpl in Hq; [|done].
    destruct (nullish v) eqn:Hn; [done|]. simplify_eq. eauto.
  - intros (v & Hv & Hn & ->). exists k. split.
    + apply assoc_Some_elem in Hv. apply list_elem_of_fmap. by exists (k, v).
    + by rewrite Hv; simpl; rewrite Hn.
Qed.

Lemma query_NoDup params :
  NoDup (params.*1) →
  omap (query_pair params) (params.*1)
  = omap (λ kv, if nullish kv.2 then None else Some (kv.1, to_string kv.2)) params.
Proof.
  intros Hnd.
  assert (∀ l, (∀ kv, kv ∈ l → assoc kv.1 params = Some kv.2) →
               omap (query_pair params) (l.*1)
               = omap (λ kv, if nullish kv.2 then None else Some (kv.1, to_string kv.2)) l)
    as Hgen.
  { induction l as [|[k v] l IH]; intros Hl; [done|].
    pose proof (Hl (k, v) ltac:(left)) as Hk. simpl in Hk.
    rewrite fmap_cons. cbn [omap list_omap fst snd].
    rewrite IH by (intros kv Hkv; apply Hl; by right).
    unfold query_pair at 1. rewrite Hk. simpl. done. }
  apply Hgen. intros [k v] Hkv. by apply assoc_NoDup.
Qed.

End RemoteClient.

(** C8.  For a GET request the query of the request URL starts with the
    [api_key]; a parameter whose value is [null] or [undefined] contributes no
    pair at all (neither an empty string nor the text "null"), and every other
    parameter contributes its key with the text of its value, in the order of
    the keys. *)
Theorem makeRequest_GET_query (api : TMDBApiBase) (endpoint : string)
    (params : list (string * JsValue)) (payload : JsValue) :
  let q := searchParams (url (makeRequest api endpoint params "GET" payload)) in
  head q = Some ("api_key", apiKey api)
  ∧ (∀ k s, (k, s) ∈ q ↔
       (k = "api_key" ∧ s = apiKey api)
       ∨ ∃ v, assoc k params = Some v ∧ nullish v = false ∧ s = to_string v)
  ∧ (∀ k v, assoc k params = Some v → nullish v = true → k ≠ "api_key" → k ∉ q.*1)
  ∧ (NoDup (params.*1) →
       q = ("api_key", apiKey api)
           :: omap (λ kv, if nullish kv.2 then None else Some (kv.1, to_string kv.2)) params).
Proof.
  cbn zeta. unfold makeRequest. cbn [url]. rewrite request_url_GET.
  split_and!.
  - done.
  - intros k s. rewrite elem_of_cons, elem_of_query. split.
    + intros [Heq|H]; [left; by simplify_eq|by right].
    + intros [[-> ->]|H]; [by left|by right].
  - intros k v Hv Hn Hk. rewrite fmap_cons, not_elem_of_cons. split; [done|].
    intros ((k' & s) & -> & Hin)%list_elem_of_fmap. simpl in Hv.
    apply elem_of_query in Hin as (v' & Hv' & Hn' & _). congruence.
  - intros Hnd. by rewrite query_NoDup.
Qed.

Lemma makeRequest_GET_query_witness :
  let params := [("query", JStr "dune"); ("region", JNull); ("year", JUndefined);
                 ("page", JNum 1)] in
  NoDup (params.*1)
  ∧ searchParams (url (makeRequest (new_TMDBApiBase "KEY") "/search/movie" params "GET" JNull))
    = [("api_key", "KEY"); ("query", "dune"); ("page", "1")].
Proof.
  cbn zeta.
  assert (NoDup ([("query", JStr "dune"); ("region", JNull); ("year", JUndefined);
                  ("page", JNum 1)].*1)) as Hnd
    by (apply (bool_decide_unpack _); vm_compute; exact I).
  split; [exact Hnd|].
  exact (proj2 (proj2 (proj2
    (makeRequest_GET_query (new_TMDBApiBase "KEY") "/search/movie" _ JNull))) Hnd).
Defined.

(** C9.  The image-URL helper returns [null] for a falsy path, whatever the
    size, and for a non-empty path [p] and a size [s] exactly the string
    [imageBaseUrl + "/" + s + p]. *)
Theorem getImageUrl_derivation (api : TMDBApiBase) :
  (∀ path size, truthy path = false → getImageUrl api path size = JNull)
  ∧ (∀ p s : string, p ≠ "" →
       getImageUrl api (JStr p) (JStr s) = JStr (imageBaseUrl api +:+ "/" +:+ s +:+ p)).
Proof.
  split.
  - intros path size Hp. unfold getImageUrl. by rewrite Hp.
  - intros p s Hp. unfold getImageUrl. simpl.
    destruct (String.eqb_spec p "") as [->|_]; done.
Qed.

Lemma getImageUrl_derivation_witness :
  truthy JNull = false
  ∧ getImageUrl (new_TMDBApiBase "KEY") JNull (JStr "w500") = JNull
  ∧ "/abc.jpg" ≠ ""
  ∧ getImageUrl (new_TMDBApiBase "KEY") (JStr "/abc.jpg") (JStr "w500")
    = JStr "https://image.tmdb.org/t/p/w500/abc.jpg".
Proof.
  destruct (getImageUrl_derivation (new_TMDBApiBase "KEY")) as [Hnull Hurl].
  assert ("/abc.jpg" ≠ "") as Hne by discriminate.
  split_and!; [reflexivity|by apply Hnull|exact Hne|exact (Hurl "/abc.jpg" "w500" Hne)].
Defined.

(** ** Action types and completions *)

Lemma named_types_distinct : distinct named_types.
Proof. apply (bool_decide_unpack _). vm_compute. exact I. Qed.

Lemma distinct_lookup (T : ActionTypes) (i j : nat) (a b : string) :
  distinct T → all_types T !! i = Some a → all_types T !! j = Some b → i ≠ j →
  (a === b) = false.
Proof.
  intros Hd Hi Hj Hij. apply String.eqb_neq. intros ->. apply Hij.
  by eapply NoDup_lookup.
Qed.

Ltac index_in a l :=
  lazymatch l with
  | a :: _ => constr:(0%nat)
  | _ :: ?l' => let n := index_in a l' in constr:(S n)
  end.

(** Decide the tests [c1 === c2] between two action-type constants. *)
Ltac type_eqb Hd :=
  repeat match goal with
    | |- context [?a === ?a] => rewrite (String.eqb_refl a)
    | |- context [?a === ?b] =>
        lazymatch type of Hd with
        | distinct ?T =>
            let l := eval cbv [all_types] in (all_types T) in
            let i := index_in a l in
            let j := index_in b l in
            rewrite (distinct_lookup T i j a b Hd eq_refl eq_refl ltac:(lia))
        end
    end.

Lemma bind_Normal {A B} (c : Completion A) (f : A → Completion B) (b : B) :
  c ≫= f = Normal b ↔ ∃ a, c = Normal a ∧ f a = Normal b.
Proof.
  destruct c as [a|e]; simpl; split.
  - eauto.
  - by intros (a' & [= ->] & H).
  - done.
  - by intros (a' & [=] & _).
Qed.

(** Split a successful sequence of property reads into its steps. *)
Ltac bind_inv H :=
  repeat (let x := fresh "v" in
          let Hx := fresh "Hget" in
          apply bind_Normal in H as (x & Hx & H));
  try (injection H as H).

Lemma get_prop_object fields p :
  get_prop (JObj fields) p = Normal (default JUndefined (assoc p fields)).
Proof. done. Qed.

(** ** The movie-details reducer *)

Section MovieDetailsProperties.
Import MovieDetails.
Context {T : ActionTypes}.
Implicit Types (s : State) (a : Action).

(** A transition either clears [reviewsLoading] or leaves it alone. *)
Lemma reducer_reviewsLoading s a s' :
  movieDetailsReducer s a = Normal s' →
  reviewsLoading s' = false ∨ reviewsLoading s' = reviewsLoading s.
Proof.
  unfold movieDetailsReducer, case_store_details, case_append_reviews.
  repeat case_match; intros Hred; bind_inv Hred; subst s'; simpl; auto.
Qed.

(** The request of more reviews sets the property [reviesLoading]. *)
Lemma reducer_more_reviews_request s p :
  distinct T →
  movieDetailsReducer s (mkAction FETCH_MORE_REVIEWS_REQUEST p)
  = Normal {| current := current s; reviews := reviews s; loading := loading s;
              reviewsLoading := reviewsLoading s; error := error s;
              reviesLoading := Some true |}.
Proof. intros Hd. unfold movieDetailsReducer. simpl. by type_eqb Hd. Qed.

(** What the store does with the action of [fetchMoreReviews]: the first
    clause labelled [FETCH_MORE_REVIEWS_SUCCESS] runs, and the payload has
    neither [id] nor [reviewsTotalPages]. *)
Lemma reducer_moreReviewsSuccess s movieId revs pg total :
  distinct T →
  movieDetailsReducer s (moreReviewsSuccess movieId revs pg total)
  = Normal {| current := payload (moreReviewsSuccess movieId revs pg total);
              reviews := <["undefined" :=
                            {| items := revs; page := JNum 1; totalPages := JUndefined |}]>
                         (reviews s);
              loading := false;
              reviewsLoading := reviewsLoading s;
              error := error s;
              reviesLoading := reviesLoading s |}.
Proof. intros Hd. unfold movieDetailsReducer. simpl. by type_eqb Hd. Qed.

(** The second clause is never selected: dropping it changes nothing. *)
Lemma second_clause_dead s a :
  movieDetailsReducer s a =
  if type a === FETCH_MOVIE_FULL_DETAILS_REQUEST then movieDetailsReducer s a
  else if type a === FETCH_MORE_REVIEWS_SUCCESS then case_store_details s a
  else if type a === FETCH_MOVIE_FULL_DETAILS_FAILURE then movieDetailsReducer s a
  else if type a === FETCH_MORE_REVIEWS_REQUEST then movieDetailsReducer s a
  else if type a === FETCH_MORE_REVIEWS_FAILURE then movieDetailsReducer s a
  else if type a === CLEAR_CURRENT_MOVIE then movieDetailsReducer s a
  else Normal s.
Proof. unfold movieDetailsReducer. repeat case_match; done. Qed.


(** The second clause, run on its own on the action of [fetchMoreReviews],
    appends the new reviews to the stored ones [old] and stores the
    number of the page. *)
Lemma case_append_stored s movieId revs pg total e old :
  reviews s !! to_property_key movieId = Some e →
  items e = JArr old →
  case_append_reviews s (moreReviewsSuccess movieId (JArr revs) pg total)
  = Normal (appended s movieId old revs pg total).
Proof.
  intros He Hold. unfold case_append_reviews, moreReviewsSuccess.
  cbn [payload]. rewrite !get_prop_object.
  cbn [assoc String.eqb Ascii.eqb Bool.eqb default from_option id].
  cbn [mbind completion_bind]. rewrite He.
  cbn [fmap option_fmap option_map default from_option id].
  rewrite Hold. done.
Qed.

Lemma case_append_fresh s movieId revs pg total :
  reviews s !! to_property_key movieId = None →
  case_append_reviews s (moreReviewsSuccess movieId (JArr revs) pg total)
  = Normal (appended s movieId [] revs pg total).
Proof.
  intros He. unfold case_append_reviews, moreReviewsSuccess.
  cbn [payload]. rewrite !get_prop_object.
  cbn [assoc String.eqb Ascii.eqb Bool.eqb default from_option id].
  cbn [mbind completion_bind]. rewrite He. done.
Qed.

(** Over a sequence of pages it reaches the entry holding the stored
    reviews followed by all the pages, at the number of the last page. *)
Lemma append_pages_concat movieId total pages : ∀ first s acc e,
  pages ≠ [] →
  reviews s !! to_property_key movieId = Some e →
  items e = JArr acc →
  ∃ s', append_pages movieId total first pages s = Normal s' ∧
        reviews s' !! to_property_key movieId
        = Some {| items := JArr (acc ++ concat pages);
                  page := JNum (first + Z.of_nat (length pages) - 1);
                  totalPages := JNum total |}.
Proof.
  induction pages as [|revs rest IH]; [done|].
  intros first s acc e _ He Hacc. cbn [append_pages].
  rewrite (case_append_stored _ _ _ _ _ _ _ He Hacc). cbn [mbind completion_bind].
  set (s1 := appended s movieId acc revs (JNum first) (JNum total)).
  assert (reviews s1 !! to_property_key movieId
          = Some {| items := JArr (acc ++ revs); page := JNum first;
                    totalPages := JNum total |}) as H1
    by apply lookup_insert_eq.
  destruct rest as [|revs' rest].
  - exists s1. split; [done|]. rewrite H1. cbn [concat length].
    rewrite app_nil_r. do 3 f_equal. lia.
  - destruct (IH (first + 1)%Z s1 (acc ++ revs) _ ltac:(done) H1 eq_refl)
      as (s' & Hs' & Hlook).
    exists s'. split; [exact Hs'|]. rewrite Hlook.
    cbn [concat]. rewrite <- app_assoc. do 3 f_equal. cbn [length]. lia.
Qed.

Lemma append_pages_from_empty movieId total pages s :
  pages ≠ [] →
  reviews s !! to_property_key movieId = None →
  ∃ s', append_pages movieId total 1 pages s = Normal s' ∧
        reviews s' !! to_property_key movieId
        = Some {| items := JArr (concat pages);
                  page := JNum (Z.of_nat (length pages));
                  totalPages := JNum total |}.
Proof.
  destruct pages as [|revs rest]; [done|]. intros _ Hnone. cbn [append_pages].
  rewrite (case_append_fresh _ _ _ _ _ Hnone). cbn [mbind completion_bind].
  set (s1 := appended s movieId [] revs (JNum 1) (JNum total)).
  assert (reviews s1 !! to_property_key movieId
          = Some {| items := JArr revs; page := JNum 1; totalPages := JNum total |}) as H1
    by apply lookup_insert_eq.
  destruct rest as [|revs' rest].
  - exists s1. split; [done|]. rewrite H1. cbn [concat]. by rewrite app_nil_r.
  - destruct (append_pages_concat movieId total (revs' :: rest) 2 s1 revs _
                ltac:(done) H1 eq_refl) as (s' & Hs' & Hlook).
    exists s'. split; [exact Hs'|]. rewrite Hlook.
    do 3 f_equal. cbn [length]. lia.
Qed.

End MovieDetailsProperties.

Section MergeProperties.
Import MovieDetails.
Context {T : ActionTypes}.
Implicit Types (s : State) (a : Action).

Lemma merge_pages_app movieId total pages1 pages2 : ∀ first s,
  merge_pages movieId total first (pages1 ++ pages2) s
  = merge_pages movieId total (first + Z.of_nat (length pages1)) pages2
      (merge_pages movieId total first pages1 s).
Proof.
  induction pages1 as [|revs rest IH]; intros first s.
  - simpl. by rewrite Z.add_0_r.
  - cbn [app merge_pages length]. rewrite IH.
    by replace (first + 1 + Z.of_nat (length rest))%Z
      with (first + Z.of_nat (S (length rest)))%Z by lia.
Qed.

Lemma merge_pages_frame movieId total pages (Hd : distinct T) : ∀ first s k,
  k ≠ "undefined" →
  reviews (merge_pages movieId total first pages s) !! k = reviews s !! k.
Proof.
  induction pages as [|revs rest IH]; intros first s k Hk; [done|].
  cbn [merge_pages]. rewrite IH by done. unfold step.
  rewrite reducer_moreReviewsSuccess by done. cbn [reviews].
  by rewrite lookup_insert_ne.
Qed.

Lemma assoc_set_field_ne fields p q v :
  q ≠ p → assoc q (set_field p v fields) = assoc q fields.
Proof.
  intros Hne. induction fields as [|[k w] rest IH]; simpl.
  - destruct (String.eqb_spec p q); congruence.
  - destruct (String.eqb_spec k p) as [->|Hkp]; simpl.
    + destruct (String.eqb_spec p q); congruence.
    + by rewrite IH.
Qed.

(** The items the first clause stores do not depend on the [page] of the
    payload. *)
Lemma case_store_details_page s ty fields p s' :
  case_store_details s (mkAction ty (JObj fields)) = Normal s' →
  ∃ s'', case_store_details s (mkAction ty (JObj (set_field "page" p fields))) = Normal s''
         ∧ reviews s'' = reviews s'.
Proof.
  unfold case_store_details. cbn [payload]. rewrite !get_prop_object.
  rewrite !assoc_set_field_ne by done. cbn [mbind completion_bind].
  intros [= <-]. eexists. split; [done|]. done.
Qed.

End MergeProperties.

(** Reading a property throws exactly on [null] and [undefined]. *)
Lemma get_prop_throws v p : (∃ e, get_prop v p = Abrupt e) ↔ nullish v = true.
Proof.
  destruct v; cbn [get_prop nullish]; repeat case_match;
    (split; [first [by intros [e [=]] | done]|first [done | intros _; by eexists]]).
Qed.

Lemma get_prop_normal v p : nullish v = false → ∃ x, get_prop v p = Normal x.
Proof.
  intros Hv. destruct (get_prop v p) as [x|e] eqn:Hget; [by eexists|].
  assert (nullish v = true) by (apply (get_prop_throws v p); by eexists). congruence.
Qed.

Section SequenceCheck.
Import MovieDetails.
Context {T : ActionTypes}.
Implicit Types (s : State) (a : Action).

(** A merge rewrites one entry of [reviews]. *)
Lemma merge_writes_one_entry s a s' :
  distinct T →
  type a = FETCH_MORE_REVIEWS_SUCCESS →
  movieDetailsReducer s a = Normal s' →
  ∃ key e, reviews s' = <[key := e]> (reviews s).
Proof.
  intros Hd Hty. unfold movieDetailsReducer. rewrite Hty. type_eqb Hd.
  unfold case_store_details. intros Hred. bind_inv Hred. subst s'.
  cbn [reviews]. eauto.
Qed.

(** No transition reads a stored page number: the items stored afterwards
    are determined by the action and the items stored before. *)
Lemma reducer_ignores_stored_page s1 s2 a s1' :
  (∀ k, items <$> reviews s1 !! k = items <$> reviews s2 !! k) →
  movieDetailsReducer s1 a = Normal s1' →
  ∃ s2', movieDetailsReducer s2 a = Normal s2'
         ∧ ∀ k, items <$> reviews s1' !! k = items <$> reviews s2' !! k.
Proof.
  intros Hitems. unfold movieDetailsReducer, case_store_details.
  repeat case_match; intros Hred; bind_inv Hred; subst s1';
    repeat match goal with Hg : get_prop _ _ = Normal _ |- _ => rewrite Hg; clear Hg end;
    cbn [mbind completion_bind mret completion_ret];
    (eexists; split; [reflexivity|]); cbn [reviews]; try done.
  intros k. rewrite !lookup_insert. by case_decide.
Qed.

(** Nor does the outcome for [reviews] depend on the page number carried
    by the action. *)
Lemma reducer_ignores_payload_page s a fields p s' :
  distinct T →
  type a = FETCH_MORE_REVIEWS_SUCCESS →
  payload a = JObj fields →
  movieDetailsReducer s a = Normal s' →
  ∃ s'', movieDetailsReducer s (mkAction (type a) (JObj (set_field "page" p fields)))
         = Normal s''
         ∧ ∀ k, items <$> reviews s'' !! k = items <$> reviews s' !! k.
Proof.
  intros Hd Hty Hpay. destruct a as [ty pl]. cbn [type payload] in *. subst ty pl.
  unfold movieDetailsReducer. cbn [type]. type_eqb Hd.
  intros (s'' & Hs'' & Heq)%(case_store_details_page _ _ _ p).
  exists s''. split; [done|]. by rewrite Heq.
Qed.


End SequenceCheck.

(** C10.  In every reachable state of the movie-details store
    [reviewsLoading] is [false]: a transition either assigns [false] to it or
    leaves it as it is, and the request of more reviews writes the property
    [reviesLoading] instead. *)
Theorem reviewsLoading_always_false {T : ActionTypes} :
  (∀ s, MovieDetails.reachable s → MovieDetails.reviewsLoading s = false)
  ∧ (∀ s a s', MovieDetails.movieDetailsReducer s a = Normal s' →
       MovieDetails.reviewsLoading s' = false
       ∨ MovieDetails.reviewsLoading s' = MovieDetails.reviewsLoading s)
  ∧ (distinct T → ∀ s p s',
       MovieDetails.movieDetailsReducer s (mkAction FETCH_MORE_REVIEWS_REQUEST p) = Normal s' →
       MovieDetails.reviewsLoading s' = MovieDetails.reviewsLoading s
       ∧ MovieDetails.reviesLoading s' = Some true).
Proof.
  split_and!.
  - induction 1 as [|s a s' _ IH Hstep]; [done|].
    destruct (reducer_reviewsLoading _ _ _ Hstep) as [->| ->]; done.
  - apply @reducer_reviewsLoading.
  - intros Hd s p s'. rewrite reducer_more_reviews_request by done. by intros [= <-].
Qed.

Lemma reviewsLoading_always_false_witness :
  let request := mkAction "FETCH_MORE_REVIEWS_REQUEST" JUndefined in
  let s := MovieDetails.step (T:=named_types) MovieDetails.initialState request in
  MovieDetails.reachable (T:=named_types) s
  ∧ MovieDetails.reviewsLoading s = false
  ∧ MovieDetails.reviesLoading s = Some true.
Proof.
  cbn zeta.
  set (request := mkAction "FETCH_MORE_REVIEWS_REQUEST" JUndefined).
  set (s := MovieDetails.step (T:=named_types) MovieDetails.initialState request).
  assert (MovieDetails.movieDetailsReducer (T:=named_types) MovieDetails.initialState request
          = Normal s) as Hstep by reflexivity.
  assert (MovieDetails.reachable (T:=named_types) s) as Hreach
    by exact (MovieDetails.reachable_step _ _ _ MovieDetails.reachable_init Hstep).
  destruct (reviewsLoading_always_false (T:=named_types)) as (Hinv & _ & Hreq).
  split_and!; [exact Hreach|exact (Hinv s Hreach)|].
  exact (proj2 (Hreq named_types_distinct _ _ _ Hstep)).
Defined.

(** C4 (what the code does instead).  Merging pages of the reviews of a
    movie in order, through the store: the first clause labelled
    [FETCH_MORE_REVIEWS_SUCCESS] runs each time, so after the last page the
    entry under the key "undefined" holds the reviews of that page alone at
    page 1, and the entry of every other key, the one of the movie included,
    is as it was before the first merge.  The pages are not concatenated
    under the key of the movie. *)
Theorem merge_pages_keeps_last_page {T : ActionTypes} (Hd : distinct T)
    (movieId : JsValue) (total first : Z) (pages : list (list JsValue))
    (last : list JsValue) (s : MovieDetails.State) :
  let s' := MovieDetails.merge_pages movieId total first (pages ++ [last]) s in
  MovieDetails.reviews s' !! "undefined"
  = Some {| MovieDetails.items := JArr last;
            MovieDetails.page := JNum 1;
            MovieDetails.totalPages := JUndefined |}
  ∧ ∀ k, k ≠ "undefined" → MovieDetails.reviews s' !! k = MovieDetails.reviews s !! k.
Proof.
  cbn zeta. split.
  - rewrite merge_pages_app. cbn [MovieDetails.merge_pages]. unfold MovieDetails.step.
    rewrite reducer_moreReviewsSuccess by done. cbn [MovieDetails.reviews].
    apply lookup_insert_eq.
  - intros k Hk. by apply merge_pages_frame.
Qed.

Lemma merge_pages_keeps_last_page_witness :
  let s' := MovieDetails.merge_pages (T:=named_types) (JNum 550) 2 1
              [[JStr "review 1"]; [JStr "review 2"]] MovieDetails.initialState in
  distinct named_types
  ∧ MovieDetails.reviews s' !! "550" = None
  ∧ MovieDetails.reviews s' !! "undefined"
    = Some {| MovieDetails.items := JArr [JStr "review 2"];
              MovieDetails.page := JNum 1;
              MovieDetails.totalPages := JUndefined |}.
Proof.
  cbn zeta.
  destruct (merge_pages_keeps_last_page named_types_distinct (JNum 550) 2 1
              [[JStr "review 1"]] [JStr "review 2"] MovieDetails.initialState)
    as [Hlast Hframe].
  split_and!; [exact named_types_distinct| |exact Hlast].
  assert ("550" ≠ "undefined") as Hne by discriminate.
  exact (Hframe "550" Hne).
Defined.




(** ** The movie-cache reducer *)

Section MovieCacheProperties.
Import MovieCache.
Context {T : ActionTypes}.
Implicit Types (s : State) (a : Action).

Lemma reducer_request now s movieId :
  movieCacheReducer now s (fetchMovieDetailRequest movieId)
  = Normal {| details := details s;
              lastFetched := lastFetched s;
              loading := <[to_property_key movieId := true]> (loading s);
              error := JNull |}.
Proof. unfold movieCacheReducer. simpl. by rewrite String.eqb_refl. Qed.

(** The success case stores the time of the clock under the key of the
    movie in [details] and does not touch [lastFetched]. *)
Lemma reducer_success now s movieId data :
  distinct T →
  movieCacheReducer now s (fetchMovieDetailSuccess movieId data)
  = Normal {| details := <[to_property_key movieId := JNum now]> (details s);
              lastFetched := lastFetched s;
              loading := <[to_property_key movieId := false]> (loading s);
              error := error s |}.
Proof. intros Hd. unfold movieCacheReducer. simpl. by type_eqb Hd. Qed.

Lemma reducer_failure now s movieId err :
  distinct T →
  movieCacheReducer now s (fetchMovieDetailFailure movieId err)
  = Normal {| details := details s;
              lastFetched := lastFetched s;
              loading := <[to_property_key movieId := false]> (loading s);
              error := err |}.
Proof. intros Hd. unfold movieCacheReducer. simpl. by type_eqb Hd. Qed.

(** No case of the reducer adds an entry to [lastFetched]. *)
Lemma reducer_lastFetched now s a s' :
  movieCacheReducer now s a = Normal s' →
  lastFetched s' ⊆ lastFetched s.
Proof.
  unfold movieCacheReducer.
  repeat case_match; intros Hred; bind_inv Hred; subst s'; cbn [lastFetched];
    first [done | apply map_empty_subseteq | apply delete_subseteq].
Qed.

(** The cases of the other slice leave the actions of the cache alone. *)
Lemma details_reducer_request md movieId :
  distinct T →
  MovieDetails.movieDetailsReducer md (fetchMovieDetailRequest movieId) = Normal md.
Proof. intros Hd. unfold MovieDetails.movieDetailsReducer. simpl. by type_eqb Hd. Qed.

Lemma details_reducer_success md movieId data :
  distinct T →
  MovieDetails.movieDetailsReducer md (fetchMovieDetailSuccess movieId data) = Normal md.
Proof. intros Hd. unfold MovieDetails.movieDetailsReducer. simpl. by type_eqb Hd. Qed.

Lemma details_reducer_failure md movieId err :
  distinct T →
  MovieDetails.movieDetailsReducer md (fetchMovieDetailFailure movieId err) = Normal md.
Proof. intros Hd. unfold MovieDetails.movieDetailsReducer. simpl. by type_eqb Hd. Qed.

End MovieCacheProperties.

(** ** The store *)

Section StoreProperties.
Import Store.
Context {T : ActionTypes}.

Lemma reachable_lastFetched s :
  reachable s → MovieCache.lastFetched (movieCache s) = ∅.
Proof.
  induction 1 as [|s now a s' _ IH Hstep]; [done|].
  unfold rootReducer in Hstep. bind_inv Hstep. subst s'. cbn [movieCache].
  match goal with Hget : MovieCache.movieCacheReducer _ _ _ = Normal ?mc |- _ =>
    pose proof (reducer_lastFetched _ _ _ _ Hget) as Hsub end.
  rewrite IH in Hsub.
  apply map_eq. intros k. rewrite lookup_empty.
  eapply lookup_weaken_None; [apply lookup_empty|exact Hsub].
Qed.

Lemma dispatch_request w movieId :
  distinct T →
  dispatch (MovieCache.fetchMovieDetailRequest movieId) w
  = Normal (set_store
              {| movieCache :=
                   {| MovieCache.details := MovieCache.details (movieCache (store w));
                      MovieCache.lastFetched := MovieCache.lastFetched (movieCache (store w));
                      MovieCache.loading :=
                        <[to_property_key movieId := true]>
                          (MovieCache.loading (movieCache (store w)));
                      MovieCache.error := JNull |};
                 movieDetails := movieDetails (store w) |} w).
Proof.
  intros Hd. unfold dispatch, rootReducer.
  by rewrite reducer_request, details_reducer_request.
Qed.

Lemma dispatch_success w movieId data :
  distinct T →
  dispatch (MovieCache.fetchMovieDetailSuccess movieId data) w
  = Normal (set_store
              {| movieCache :=
                   {| MovieCache.details :=
                        <[to_property_key movieId := JNum (clock w)]>
                          (MovieCache.details (movieCache (store w)));
                      MovieCache.lastFetched := MovieCache.lastFetched (movieCache (store w));
                      MovieCache.loading :=
                        <[to_property_key movieId := false]>
                          (MovieCache.loading (movieCache (store w)));
                      MovieCache.error := MovieCache.error (movieCache (store w)) |};
                 movieDetails := movieDetails (store w) |} w).
Proof.
  intros Hd. unfold dispatch, rootReducer.
  by rewrite reducer_success, details_reducer_success.
Qed.

Lemma dispatch_failure w movieId err :
  distinct T →
  dispatch (MovieCache.fetchMovieDetailFailure movieId err) w
  = Normal (set_store
              {| movieCache :=
                   {| MovieCache.details := MovieCache.details (movieCache (store w));
                      MovieCache.lastFetched := MovieCache.lastFetched (movieCache (store w));
                      MovieCache.loading :=
                        <[to_property_key movieId := false]>
                          (MovieCache.loading (movieCache (store w)));
                      MovieCache.error := err |};
                 movieDetails := movieDetails (store w) |} w).
Proof.
  intros Hd. unfold dispatch, rootReducer.
  by rewrite reducer_failure, details_reducer_failure.
Qed.

End StoreProperties.

(** ** The thunks *)

Section ThunkProperties.
Import Store.
Context {T : ActionTypes}.
Implicit Types (w : World) (t : Thunk) (genv : string → Binding).

Lemma dispatch_network a w w' : dispatch a w = Normal w' → network w' = network w.
Proof. unfold dispatch. intros H. bind_inv H. by subst w'. Qed.

Lemma dispatch_clock a w w' : dispatch a w = Normal w' → clock w' = clock w.
Proof. unfold dispatch. intros H. bind_inv H. by subst w'. Qed.

(** A run adds to the network exactly the request it is left waiting for. *)
Lemma run_network genv t : ∀ w,
  network (run genv t w).2 = network w ++ requests_of (run genv t w).1.
Proof.
  induction t as [v|e|k IH|k IH|a k IHk h IHh|x a k IHk h IHh|req k _ h _];
    intros w; cbn [run].
  - by rewrite app_nil_r.
  - by rewrite app_nil_r.
  - apply IH.
  - apply IH.
  - destruct (dispatch a w) as [w'|e] eqn:Hd; [|apply IHh].
    rewrite IHk. by rewrite (dispatch_network _ _ _ Hd).
  - destruct (genv x); [apply IHh|].
    destruct (dispatch a w) as [w'|e] eqn:Hd; [|apply IHh].
    rewrite IHk. by rewrite (dispatch_network _ _ _ Hd).
  - done.
Qed.

(** The test of [fetchMovieDetail] is the freshness rule: it holds when a
    refresh is not forced, a truthy value is cached, a time of fetch is
    recorded and less than [CACHE_DURATION] has passed since. *)
Lemma cache_test_true state now movieId forceRefresh :
  cache_test state now movieId forceRefresh = true ↔
  truthy forceRefresh = false
  ∧ ∃ v fetched, MovieCache.details (movieCache state) !! to_property_key movieId = Some v
            ∧ truthy v = true
            ∧ MovieCache.lastFetched (movieCache state) !! to_property_key movieId = Some fetched
            ∧ (now - fetched < 3600000)%Z.
Proof.
  unfold cache_test, MovieCache.CACHE_DURATION.
  rewrite !andb_true_iff, negb_true_iff.
  destruct (MovieCache.details _ !! _) as [v|]; cbn [default from_option id].
  - destruct (MovieCache.lastFetched _ !! _) as [fetched|]; cbn [to_number js_sub js_lt].
    + rewrite Z.ltb_lt. split.
      * intros [[? ?] ?]. eauto 10.
      * intros (? & v' & f' & [= <-] & ? & [= <-] & ?). done.
    + split; [by intros [_ ?]|]. by intros (? & v' & f' & _ & _ & [=] & _).
  - split; [by intros [[_ ?] _]|]. by intros (? & v' & f' & [=] & _).
Qed.

Lemma cache_test_no_timestamp state now movieId forceRefresh :
  MovieCache.lastFetched (movieCache state) !! to_property_key movieId = None →
  cache_test state now movieId forceRefresh = false.
Proof.
  intros Hnone. apply not_true_is_false. rewrite cache_test_true.
  intros (_ & v & f & _ & _ & Hsome & _). congruence.
Qed.

Section FetchMovieDetail.
Variables (genv : string → Binding) (tmdb : TMDBApiBase).
Variables (movieId forceRefresh : JsValue).

(** A fresh entry: the cached value is returned, the world is as it
    was. *)
Lemma run_fetchMovieDetail_hit w :
  cache_test (store w) (clock w) movieId (default_param forceRefresh (JBool false)) = true →
  run genv (fetchMovieDetail tmdb movieId forceRefresh) w
  = (Resolved (default JUndefined
                 (MovieCache.details (movieCache (store w)) !! to_property_key movieId)),
     w).
Proof. intros Htest. cbn [fetchMovieDetail run]. by rewrite Htest. Qed.

(** Otherwise, where [dispatch] is not defined the call is rejected
    before any request. *)
Lemma run_fetchMovieDetail_unbound w :
  genv "dispatch" = NotDefined →
  cache_test (store w) (clock w) movieId (default_param forceRefresh (JBool false)) = false →
  run genv (fetchMovieDetail tmdb movieId forceRefresh) w
  = (Rejected (ReferenceError "dispatch is not defined"), w).
Proof.
  intros Hg Htest. cbn [fetchMovieDetail run].
  rewrite Htest. cbn [run]. by rewrite Hg.
Qed.

(** Where it is the [dispatch] of the store, the loading flag of the
    movie is set and a request is sent. *)
Lemma run_fetchMovieDetail_bound w w' :
  genv "dispatch" = IsStoreDispatch →
  cache_test (store w) (clock w) movieId (default_param forceRefresh (JBool false)) = false →
  dispatch (MovieCache.fetchMovieDetailRequest movieId) w = Normal w' →
  run genv (fetchMovieDetail tmdb movieId forceRefresh) w
  = (Suspended (getMovieDetails tmdb movieId (JStr "ko-KR") (JStr "credits,videos,images"))
       (fetchMovieDetail_then movieId) (fetchMovieDetail_catch movieId),
     send (getMovieDetails tmdb movieId (JStr "ko-KR") (JStr "credits,videos,images")) w').
Proof.
  intros Hg Htest Hd. cbn [fetchMovieDetail run].
  rewrite Htest. cbn [run]. by rewrite Hg, Hd.
Qed.

End FetchMovieDetail.

End ThunkProperties.

Section Coalescing.
Import Store.
Context {T : ActionTypes}.
Variables (genv : string → Binding) (tmdb : TMDBApiBase).
Variables (movieId forceRefresh : JsValue).
Implicit Types (w : World).

(** The first phase of [fetchMovieDetail] reads the cache entries and the
    clock only, and leaves both as they are: the loading flags play no part
    in it. *)
Lemma run_fetchMovieDetail_same w w' :
  distinct T →
  same_cache w w' →
  (run genv (fetchMovieDetail tmdb movieId forceRefresh) w').1
  = (run genv (fetchMovieDetail tmdb movieId forceRefresh) w).1
  ∧ same_cache w (run genv (fetchMovieDetail tmdb movieId forceRefresh) w').2.
Proof.
  intros Hd (Hdet & Hlast & Hclock).
  assert (cache_test (store w') (clock w') movieId (default_param forceRefresh (JBool false))
          = cache_test (store w) (clock w) movieId (default_param forceRefresh (JBool false)))
    as Htest by (unfold cache_test; by rewrite Hdet, Hlast, Hclock).
  destruct (cache_test (store w) (clock w) movieId _) eqn:Hw.
  - rewrite !run_fetchMovieDetail_hit by done. cbn [fst snd]. by rewrite Hdet.
  - destruct (genv "dispatch") eqn:Hg.
    + by rewrite !run_fetchMovieDetail_unbound.
    + rewrite (run_fetchMovieDetail_bound _ _ _ _ w' _ Hg Htest (dispatch_request _ _ Hd)).
      rewrite (run_fetchMovieDetail_bound _ _ _ _ w _ Hg Hw (dispatch_request _ _ Hd)).
      done.
Qed.

Lemma issue_fetchMovieDetail n : ∀ w w',
  distinct T →
  same_cache w w' →
  let o := (run genv (fetchMovieDetail tmdb movieId forceRefresh) w).1 in
  (issue genv (fetchMovieDetail tmdb movieId forceRefresh) n w').1 = replicate n o
  ∧ network (issue genv (fetchMovieDetail tmdb movieId forceRefresh) n w').2
    = network w' ++ concat (replicate n (requests_of o)).
Proof.
  induction n as [|n IH]; intros w w' Hd Hsame; cbn zeta.
  - cbn [issue replicate concat fst snd]. by rewrite app_nil_r.
  - cbn [issue].
    destruct (run_fetchMovieDetail_same w w' Hd Hsame) as [Ho Hsame'].
    pose proof (run_network genv (fetchMovieDetail tmdb movieId forceRefresh) w') as Hnet.
    destruct (run genv (fetchMovieDetail tmdb movieId forceRefresh) w') as [o1 w1].
    cbn [fst snd] in Ho, Hsame', Hnet.
    destruct (IH w w1 Hd Hsame') as [Hos Hnet'].
    destruct (issue genv (fetchMovieDetail tmdb movieId forceRefresh) n w1) as [os wn].
    cbn [fst snd] in *. cbn [replicate concat]. split.
    + by rewrite Ho, Hos.
    + rewrite Hnet', Hnet, Ho. by rewrite <- app_assoc.
Qed.

Lemma requests_of_length (o : Outcome) n :
  (2 ≤ n)%nat → length (concat (replicate n (requests_of o))) ≠ 1%nat.
Proof.
  intros Hn.
  assert (∀ m, concat (replicate m (@nil Request)) = []) as Hnil
    by (induction m as [|m IHm]; [done|exact IHm]).
  destruct o; cbn [requests_of].
  - by rewrite Hnil.
  - by rewrite Hnil.
  - do 2 (destruct n as [|n]; [lia|]). done.
Qed.

End Coalescing.

(** C1, counterexample.  Two calls of [fetchMovieDetail] for movie 550 on an
    empty cache, the second issued before the first completes.  Where
    [dispatch] resolves to the store's, two requests for the same address are
    sent, and the two callers get the answers of their own requests: a value
    for the first, an error for the second.  Where [dispatch] is not defined,
    no request is sent.  In neither case is exactly one request made. *)
Lemma concurrent_calls_not_coalesced :
  let tmdb := new_TMDBApiBase "KEY" in
  let w := {| Store.store := Store.initialState; Store.clock := 1000; Store.network := [] |} in
  let t := Store.fetchMovieDetail (T:=named_types) tmdb (JNum 550) JUndefined in
  let bound := Store.issue (T:=named_types) dispatch_bound t 2 w in
  let unbound := Store.issue (T:=named_types) browser_globals t 2 w in
  let data := JObj [("id", JNum 550); ("title", JStr "Fight Club")] in
  let failure := mkError "TypeError" "Failed to fetch" in
  (href ∘ url) <$> Store.network bound.2
  = ["https://api.themoviedb.org/3/movie/550"; "https://api.themoviedb.org/3/movie/550"]
  ∧ Store.network unbound.2 = []
  ∧ (∃ o1 o2, bound.1 = [o1; o2]
       ∧ (Store.settle (T:=named_types) dispatch_bound o1
            (HttpResponse true 200 (Normal data)) bound.2).1 = Store.Resolved data
       ∧ (Store.settle (T:=named_types) dispatch_bound o2
            (NetworkFailure failure) bound.2).1 = Store.Rejected failure).
Proof.
  cbn zeta. split_and!.
  - vm_compute. reflexivity.
  - vm_compute. reflexivity.
  - eexists _, _. split_and!; [reflexivity|vm_compute; reflexivity..].
Qed.

(** C1, as amended.  [fetchMovieDetail] keeps no table of requests in flight
    and does not read the loading flags: the first phase of a call is
    determined by the cache entries and the clock.  So [n] calls for a movie
    issued before any of them completes each do what the first one does, and
    together send [n] times the requests a single call sends: never exactly
    one request when [n] is 2 or more. *)
Theorem fetchMovieDetail_calls_independent {T : ActionTypes} (Hd : distinct T)
    (genv : string → Binding) (tmdb : TMDBApiBase) (movieId forceRefresh : JsValue)
    (n : nat) (w : Store.World) :
  let t := Store.fetchMovieDetail tmdb movieId forceRefresh in
  let o := (Store.run genv t w).1 in
  (Store.issue genv t n w).1 = replicate n o
  ∧ Store.network (Store.issue genv t n w).2
    = Store.network w ++ concat (replicate n (Store.requests_of o))
  ∧ ((2 ≤ n)%nat → length (concat (replicate n (Store.requests_of o))) ≠ 1%nat)
  ∧ (∀ w',
       MovieCache.details (Store.movieCache (Store.store w'))
       = MovieCache.details (Store.movieCache (Store.store w)) →
       MovieCache.lastFetched (Store.movieCache (Store.store w'))
       = MovieCache.lastFetched (Store.movieCache (Store.store w)) →
       Store.clock w' = Store.clock w →
       (Store.run genv t w').1 = o).
Proof.
  cbn zeta.
  destruct (issue_fetchMovieDetail genv tmdb movieId forceRefresh n w w Hd) as [Hos Hnet];
    [done|].
  split_and!; [exact Hos|exact Hnet|apply requests_of_length|].
  intros w' Hdet Hlast Hclock.
  by apply (run_fetchMovieDetail_same genv tmdb movieId forceRefresh w w' Hd).
Qed.

Lemma fetchMovieDetail_calls_independent_witness :
  let tmdb := new_TMDBApiBase "KEY" in
  let w := {| Store.store := Store.initialState; Store.clock := 1000; Store.network := [] |} in
  let t := Store.fetchMovieDetail (T:=named_types) tmdb (JNum 550) JUndefined in
  let request := getMovieDetails tmdb (JNum 550) (JStr "ko-KR") (JStr "credits,videos,images") in
  distinct named_types
  ∧ Store.network (Store.issue (T:=named_types) dispatch_bound t 2 w).2 = [request; request].
Proof.
  intros tmdb w t request. split; [exact named_types_distinct|].
  exact (proj1 (proj2 (fetchMovieDetail_calls_independent (T:=named_types)
                  named_types_distinct dispatch_bound tmdb (JNum 550) JUndefined 2 w))).
Defined.

Section Settling.
Import Store.
Context {T : ActionTypes}.
Variables (genv : string → Binding) (tmdb : TMDBApiBase).
Implicit Types (w : World) (movieId : JsValue).

(** The [catch] block of [fetchMovieDetail] throws again, whether its
    [dispatch] works or not, and writes no cache entry. *)
Lemma run_fetchMovieDetail_catch movieId e w :
  distinct T →
  ∃ e' w', run genv (fetchMovieDetail_catch movieId e) w = (Rejected e', w')
           ∧ (genv "dispatch" = IsStoreDispatch → e' = e)
           ∧ MovieCache.details (movieCache (store w'))
             = MovieCache.details (movieCache (store w))
           ∧ MovieCache.lastFetched (movieCache (store w'))
             = MovieCache.lastFetched (movieCache (store w)).
Proof.
  intros Hd. unfold fetchMovieDetail_catch. cbn [run].
  destruct (genv "dispatch") eqn:Hg.
  - eexists _, _. split; [reflexivity|]. done.
  - rewrite dispatch_failure by done. cbn [run].
    eexists _, _. split; [reflexivity|]. done.
Qed.

(** The rest of its [try] block stores the time under the key of the movie
    and returns the data. *)
Lemma run_fetchMovieDetail_then movieId data w :
  distinct T →
  genv "dispatch" = IsStoreDispatch →
  ∃ w', run genv (fetchMovieDetail_then movieId data) w = (Resolved data, w')
        ∧ MovieCache.details (movieCache (store w'))
          = <[to_property_key movieId := JNum (clock w)]>
              (MovieCache.details (movieCache (store w)))
        ∧ MovieCache.lastFetched (movieCache (store w'))
          = MovieCache.lastFetched (movieCache (store w)).
Proof.
  intros Hd Hg. unfold fetchMovieDetail_then. cbn [run]. rewrite Hg.
  rewrite dispatch_success by done. cbn [run].
  eexists. split; [reflexivity|]. done.
Qed.

(** The first phase of [fetchMovieDetail] writes no cache entry. *)
Lemma run_fetchMovieDetail_cache movieId forceRefresh w :
  distinct T →
  MovieCache.details
    (movieCache (store (run genv (fetchMovieDetail tmdb movieId forceRefresh) w).2))
  = MovieCache.details (movieCache (store w))
  ∧ MovieCache.lastFetched
      (movieCache (store (run genv (fetchMovieDetail tmdb movieId forceRefresh) w).2))
    = MovieCache.lastFetched (movieCache (store w)).
Proof.
  intros Hd.
  destruct (run_fetchMovieDetail_same genv tmdb movieId forceRefresh w w Hd)
    as (_ & Hdet & Hlast & _); done.
Qed.

(** A promise of [fetchMovieDetail] that waits for an answer waits in the
    [try] block, with the store's [dispatch] at hand. *)
Lemma run_fetchMovieDetail_suspended movieId forceRefresh w req k h :
  distinct T →
  (run genv (fetchMovieDetail tmdb movieId forceRefresh) w).1 = Suspended req k h →
  genv "dispatch" = IsStoreDispatch
  ∧ k = fetchMovieDetail_then movieId
  ∧ h = fetchMovieDetail_catch movieId.
Proof.
  intros Hd.
  destruct (cache_test (store w) (clock w) movieId (default_param forceRefresh (JBool false)))
    eqn:Htest.
  - by rewrite run_fetchMovieDetail_hit.
  - destruct (genv "dispatch") eqn:Hg.
    + by rewrite run_fetchMovieDetail_unbound.
    + rewrite (run_fetchMovieDetail_bound _ _ _ _ w _ Hg Htest (dispatch_request _ _ Hd)).
      cbn [fst]. by intros [= _ <- <-].
Qed.


Lemma dispatch_full_details_failure msg w :
  distinct T →
  dispatch (mkAction FETCH_MOVIE_FULL_DETAILS_FAILURE (JObj [("error", JStr msg)])) w
  = Normal (set_store
              {| movieCache := movieCache (store w);
                 movieDetails :=
                   {| MovieDetails.current := MovieDetails.current (movieDetails (store w));
                      MovieDetails.reviews := MovieDetails.reviews (movieDetails (store w));
                      MovieDetails.loading := false;
                      MovieDetails.reviewsLoading :=
                        MovieDetails.reviewsLoading (movieDetails (store w));
                      MovieDetails.error := JStr msg;
                      MovieDetails.reviesLoading :=
                        MovieDetails.reviesLoading (movieDetails (store w)) |} |} w).
Proof.
  intros Hd. unfold dispatch, rootReducer, MovieCache.movieCacheReducer.
  cbn [type payload]. type_eqb Hd. cbn [mbind completion_bind mret completion_ret].
  unfold MovieDetails.movieDetailsReducer. cbn [type payload]. type_eqb Hd.
  done.
Qed.





End Settling.

(** C6.  A fetch of [fetchMovieDetail] that fails leaves the cache as it was:
    the first phase of the call changes no entry of [details] or of
    [lastFetched], and neither does the arrival of the failure, in whatever
    state and at whatever time it finds the store; so an entry that existed
    before is still there with its value and its time.  The promise is
    rejected (unless the call was answered from the cache and made no fetch),
    and the failure case of the reducer writes neither of the two maps. *)
Theorem failed_fetch_preserves_cache {T : ActionTypes} (Hd : distinct T)
    (genv : string → Binding) (tmdb : TMDBApiBase) (movieId forceRefresh : JsValue)
    (w : Store.World) (r : FetchResult) (e : JsError) :
  makeRequest_settle r = Abrupt e →
  let first := Store.run genv (Store.fetchMovieDetail tmdb movieId forceRefresh) w in
  (MovieCache.details (Store.movieCache (Store.store first.2))
   = MovieCache.details (Store.movieCache (Store.store w))
   ∧ MovieCache.lastFetched (Store.movieCache (Store.store first.2))
     = MovieCache.lastFetched (Store.movieCache (Store.store w)))
  ∧ (∀ w1, let last := Store.settle genv first.1 r w1 in
       MovieCache.details (Store.movieCache (Store.store last.2))
       = MovieCache.details (Store.movieCache (Store.store w1))
       ∧ MovieCache.lastFetched (Store.movieCache (Store.store last.2))
         = MovieCache.lastFetched (Store.movieCache (Store.store w1))
       ∧ ((∃ v, first.1 = Store.Resolved v) ∨ ∃ e', last.1 = Store.Rejected e'))
  ∧ (∀ now s err, ∃ s',
       MovieCache.movieCacheReducer now s (MovieCache.fetchMovieDetailFailure movieId err)
       = Normal s'
       ∧ MovieCache.details s' = MovieCache.details s
       ∧ MovieCache.lastFetched s' = MovieCache.lastFetched s).
Proof.
  intros Hr. cbn zeta.
  destruct (run_fetchMovieDetail_cache genv tmdb movieId forceRefresh w Hd) as [Hdet Hlast].
  pose proof (run_fetchMovieDetail_suspended genv tmdb movieId forceRefresh w) as Hsusp.
  destruct (Store.run genv (Store.fetchMovieDetail tmdb movieId forceRefresh) w) as [o w0].
  cbn [fst snd] in *.
  split_and!; [done..| |].
  - intros w1. destruct o as [v|e0|req k h]; cbn [Store.settle fst snd].
    + split_and!; [done..|]. left. by eexists.
    + split_and!; [done..|]. right. by eexists.
    + destruct (Hsusp req k h Hd eq_refl) as (Hg & -> & ->). rewrite Hr.
      destruct (run_fetchMovieDetail_catch genv movieId e w1 Hd)
        as (e' & w' & Hrun & _ & Hdet' & Hlast').
      rewrite Hrun. cbn [fst snd]. split_and!; [done..|]. right. by eexists.
  - intros now s err. rewrite reducer_failure by done. eauto.
Qed.

Lemma failed_fetch_preserves_cache_witness :
  let tmdb := new_TMDBApiBase "KEY" in
  let cache := {| MovieCache.details := {["550" := JObj [("id", JNum 550)]]};
                  MovieCache.lastFetched := {["550" := 1000%Z]};
                  MovieCache.loading := ∅;
                  MovieCache.error := JNull |} in
  let w := {| Store.store := {| Store.movieCache := cache;
                                Store.movieDetails := MovieDetails.initialState |};
              Store.clock := 5000000; Store.network := [] |} in
  let r := HttpResponse false 500 (Normal JNull) in
  let first := Store.run (T:=named_types) dispatch_bound
                 (Store.fetchMovieDetail (T:=named_types) tmdb (JNum 550) JUndefined) w in
  let last := Store.settle (T:=named_types) dispatch_bound first.1 r
                (Store.set_clock 5000300 first.2) in
  distinct named_types
  ∧ makeRequest_settle r = Abrupt (mkError "Error" "HTTP error! status: 500")
  ∧ length (Store.network first.2) = 1%nat
  ∧ MovieCache.details (Store.movieCache (Store.store last.2)) = MovieCache.details cache
  ∧ MovieCache.lastFetched (Store.movieCache (Store.store last.2))
    = MovieCache.lastFetched cache.
Proof.
  intros tmdb cache w r first last.
  assert (makeRequest_settle r = Abrupt (mkError "Error" "HTTP error! status: 500")) as Hr
    by reflexivity.
  destruct (failed_fetch_preserves_cache (T:=named_types) named_types_distinct
              dispatch_bound tmdb (JNum 550) JUndefined w r _ Hr)
    as ([Hdet Hlast] & Hsettle & _).
  destruct (Hsettle (Store.set_clock 5000300 first.2)) as (Hdet' & Hlast' & _).
  split_and!; [exact named_types_distinct|exact Hr|reflexivity| |].
  - exact (eq_trans Hdet' Hdet).
  - exact (eq_trans Hlast' Hlast).
Defined.

(** C3 (what the code does instead).  On a successful fetch the success case
    of the reducer stores the time of the clock, not the fetched value, under
    the key of the movie in [details], and leaves [lastFetched] as it was: a
    later lookup of the key finds the number.  The caller of the thunk does
    receive the fetched value. *)
Theorem success_stores_the_time {T : ActionTypes} (Hd : distinct T)
    (movieId data : JsValue) :
  (∀ now s, ∃ s',
     MovieCache.movieCacheReducer now s (MovieCache.fetchMovieDetailSuccess movieId data)
     = Normal s'
     ∧ MovieCache.details s' !! to_property_key movieId = Some (JNum now)
     ∧ MovieCache.lastFetched s' = MovieCache.lastFetched s)
  ∧ (∀ genv tmdb forceRefresh w req k h r w1,
       (Store.run genv (Store.fetchMovieDetail tmdb movieId forceRefresh) w).1
       = Store.Suspended req k h →
       makeRequest_settle r = Normal data →
       let last := Store.settle genv (Store.Suspended req k h) r w1 in
       last.1 = Store.Resolved data
       ∧ MovieCache.details (Store.movieCache (Store.store last.2)) !! to_property_key movieId
         = Some (JNum (Store.clock w1))
       ∧ MovieCache.lastFetched (Store.movieCache (Store.store last.2))
         = MovieCache.lastFetched (Store.movieCache (Store.store w1))).
Proof.
  split.
  - intros now s. rewrite reducer_success by done. eexists. split; [done|].
    cbn [MovieCache.details MovieCache.lastFetched]. by rewrite lookup_insert_eq.
  - intros genv tmdb forceRefresh w req k h r w1 Hsusp Hr. cbn zeta.
    destruct (run_fetchMovieDetail_suspended genv tmdb movieId forceRefresh w req k h Hd Hsusp)
      as (Hg & -> & ->).
    cbn [Store.settle]. rewrite Hr.
    destruct (run_fetchMovieDetail_then genv movieId data w1 Hd Hg)
      as (w' & -> & Hdet & Hlast).
    cbn [fst snd]. rewrite Hdet. by rewrite lookup_insert_eq.
Qed.

Lemma success_stores_the_time_witness :
  let tmdb := new_TMDBApiBase "KEY" in
  let data := JObj [("id", JNum 550); ("title", JStr "Fight Club")] in
  let w := {| Store.store := Store.initialState; Store.clock := 1000; Store.network := [] |} in
  let first := Store.run (T:=named_types) dispatch_bound
                 (Store.fetchMovieDetail (T:=named_types) tmdb (JNum 550) JUndefined) w in
  let last := Store.settle (T:=named_types) dispatch_bound first.1
                (HttpResponse true 200 (Normal data)) (Store.set_clock 1200 first.2) in
  distinct named_types
  ∧ last.1 = Store.Resolved data
  ∧ MovieCache.details (Store.movieCache (Store.store last.2)) !! "550" = Some (JNum 1200)
  ∧ MovieCache.lastFetched (Store.movieCache (Store.store last.2)) !! "550" = None.
Proof.
  intros tmdb data w first last.
  destruct (success_stores_the_time (T:=named_types) named_types_distinct (JNum 550) data)
    as [_ Hthunk].
  destruct (Hthunk dispatch_bound tmdb JUndefined w _ _ _
              (HttpResponse true 200 (Normal data)) (Store.set_clock 1200 first.2)
              eq_refl eq_refl) as (Hres & Hdet & Hlast).
  split_and!; [exact named_types_distinct|exact Hres|exact Hdet|].
  exact (eq_trans (f_equal (λ m : gmap string Z, m !! "550") Hlast) eq_refl).
Defined.

(** C2 (what the code does instead).  No transition of the store records a
    time in [lastFetched], so in every reachable state the test of
    [fetchMovieDetail] fails and the call never returns a cached value,
    however recently the movie was fetched: it goes on to a new request, or
    is rejected where [dispatch] is not defined. *)
Theorem cached_value_never_returned {T : ActionTypes}
    (genv : string → Binding) (tmdb : TMDBApiBase) (movieId forceRefresh : JsValue)
    (w : Store.World) :
  Store.reachable (Store.store w) →
  MovieCache.lastFetched (Store.movieCache (Store.store w)) = ∅
  ∧ ∀ v, (Store.run genv (Store.fetchMovieDetail tmdb movieId forceRefresh) w).1
         ≠ Store.Resolved v.
Proof.
  intros Hreach. pose proof (reachable_lastFetched _ Hreach) as Hempty.
  split; [exact Hempty|]. intros v.
  assert (Store.cache_test (Store.store w) (Store.clock w) movieId
            (default_param forceRefresh (JBool false)) = false) as Htest
    by (apply cache_test_no_timestamp; rewrite Hempty; apply lookup_empty).
  cbn [Store.fetchMovieDetail Store.run]. rewrite Htest. cbn [Store.run].
  destruct (genv "dispatch"); [done|].
  destruct (Store.dispatch _ w); done.
Qed.

Lemma cached_value_never_returned_witness :
  let tmdb := new_TMDBApiBase "KEY" in
  let data := JObj [("id", JNum 550); ("title", JStr "Fight Club")] in
  let fetched := Store.rootReducer (T:=named_types) 1000 Store.initialState
                   (MovieCache.fetchMovieDetailSuccess (T:=named_types) (JNum 550) data) in
  ∃ s, fetched = Normal s
       ∧ Store.reachable (T:=named_types) s
       ∧ let w := {| Store.store := s; Store.clock := 2000; Store.network := [] |} in
         let again := Store.run (T:=named_types) dispatch_bound
                        (Store.fetchMovieDetail (T:=named_types) tmdb (JNum 550) JUndefined) w in
         (∀ v, again.1 ≠ Store.Resolved v)
         ∧ length (Store.network again.2) = 1%nat.
Proof.
  intros tmdb data fetched.
  set (s := match fetched with Normal s => s | Abrupt _ => Store.initialState end).
  exists s.
  assert (fetched = Normal s) as Hs by reflexivity.
  assert (Store.reachable (T:=named_types) s) as Hreach
    by exact (Store.reachable_dispatch Store.initialState 1000
                (MovieCache.fetchMovieDetailSuccess (T:=named_types) (JNum 550) data) s
                Store.reachable_init Hs).
  split_and!; [exact Hs|exact Hreach|].
  cbn zeta. split; [|reflexivity].
  exact (proj2 (cached_value_never_returned (T:=named_types) dispatch_bound tmdb (JNum 550)
                  JUndefined {| Store.store := _; Store.clock := 2000; Store.network := [] |}
                  Hreach)).
Defined.




(** * Further properties *)

(** ** Requests of the client *)

Section Requests.
Import Endpoints.
Implicit Types (api : TMDBApiBase) (v d : JsValue).

Lemma truthy_not_nullish v : truthy v = true → nullish v = false.
Proof. by destruct v. Qed.

Lemma truthy_default_param v d :
  truthy v = true → default_param v d = v.
Proof. by destruct v. Qed.

Lemma falsy_default_param v d :
  truthy v = false → truthy d = false → truthy (default_param v d) = false.
Proof. by destruct v. Qed.

Lemma request_url_not_GET api endpoint params meth :
  meth ≠ "GET" →
  request_url api endpoint params meth = new_URL (baseUrl api +:+ endpoint).
Proof.
  intros Hm. unfold request_url.
  destruct (String.eqb_spec meth "GET"); [done|]. done.
Qed.

(** The value a key has in [{ ...base, ...{fields} }]: the one of [fields]
    when it has the key, the one of [base] otherwise. *)
Lemma assoc_set_field_eq fields p v : assoc p (set_field p v fields) = Some v.
Proof.
  induction fields as [|[k w] rest IH]; simpl.
  - by rewrite String.eqb_refl.
  - destruct (String.eqb_spec k p) as [->|Hkp]; simpl.
    + by rewrite String.eqb_refl.
    + destruct (String.eqb_spec k p); [done|]. exact IH.
Qed.

Lemma assoc_spread_onto base fields k :
  NoDup (fields.*1) →
  assoc k (spread_onto base (JObj fields))
  = match assoc k fields with Some v => Some v | None => assoc k base end.
Proof.
  unfold spread_onto. cbn [spread_object]. revert base.
  induction fields as [|[p v] rest IH]; intros base Hnd; [done|].
  rewrite fmap_cons in Hnd. apply NoDup_cons in Hnd as [Hp Hnd].
  cbn [fst] in Hp. cbn [foldl fst snd assoc].
  rewrite IH by done.
  destruct (String.eqb_spec p k) as [->|Hpk].
  - apply assoc_None in Hp. rewrite Hp. apply assoc_set_field_eq.
  - by rewrite assoc_set_field_ne.
Qed.

Lemma keys_set_field fields p v k :
  k ∈ (set_field p v fields).*1 ↔ k = p ∨ k ∈ fields.*1.
Proof.
  induction fields as [|[q w] rest IH]; simpl.
  - rewrite elem_of_cons. split; [intros [->|H]; [by left|by right]|].
    intros [->|H]; [by left|by right].
  - destruct (String.eqb_spec q p) as [->|Hqp]; simpl.
    + rewrite !elem_of_cons. tauto.
    + rewrite !elem_of_cons, IH. tauto.
Qed.

Lemma href_foldl_append_param params keys (u : URL) :
  href (foldl (append_param params) u keys) = href u.
Proof.
  revert u. induction keys as [|key keys IH]; intros u; [done|].
  cbn [foldl]. rewrite IH. unfold append_param. by destruct (negb _).
Qed.

(** The address and the query of a GET request. *)
Lemma request_url_GET_full api endpoint params :
  request_url api endpoint params "GET"
  = {| href := baseUrl api +:+ endpoint;
       searchParams := ("api_key", apiKey api) :: omap (query_pair params) (params.*1) |}.
Proof.
  pose proof (request_url_GET api endpoint params) as Hq.
  assert (href (request_url api endpoint params "GET") = baseUrl api +:+ endpoint) as Hh
    by (unfold request_url; cbn [String.eqb Ascii.eqb Bool.eqb];
        by rewrite href_foldl_append_param).
  destruct (request_url api endpoint params "GET") as [h q].
  cbn [href searchParams] in *. by subst.
Qed.

End Requests.

(** X1.  A request whose method is not GET carries no query at all: neither
    the parameters nor the [api_key] reach the address, the key travels in
    the [Authorization] header only.  So [rateMovie], which posts, never
    sends the session identifiers it is given; its body is the rating. *)
Theorem rateMovie_sends_no_query (api : TMDBApiBase) :
  (∀ endpoint params meth payload,
     meth ≠ "GET" →
     url (makeRequest api endpoint params meth payload) = new_URL (baseUrl api +:+ endpoint)
     ∧ ("Authorization", "Bearer " +:+ apiKey api)
       ∈ headers (makeRequest api endpoint params meth payload))
  ∧ (∀ movieId rating sessionId guestSessionId,
       let req := Endpoints.rateMovie api movieId rating sessionId guestSessionId in
       url req = new_URL (baseUrl api +:+ "/movie/" +:+ to_string movieId +:+ "/rating")
       ∧ searchParams (url req) = []
       ∧ method req = "POST"
       ∧ body req = Some (JObj [("value", rating)])).
Proof.
  split.
  - intros endpoint params meth payload Hm. unfold makeRequest. cbn [url headers].
    split; [by apply request_url_not_GET|]. set_solver.
  - intros movieId rating sessionId guestSessionId. cbn zeta.
    unfold Endpoints.rateMovie, makeRequest. cbn [url method body truthy].
    by rewrite request_url_not_GET.
Qed.

Lemma rateMovie_sends_no_query_witness :
  "POST" ≠ "GET"
  ∧ url (makeRequest (new_TMDBApiBase "KEY") "/movie/550/rating"
           [("session_id", JStr "abc")] "POST" (JObj [("value", JNum 8)]))
    = new_URL "https://api.themoviedb.org/3/movie/550/rating"
  ∧ searchParams (url (Endpoints.rateMovie (new_TMDBApiBase "KEY") (JNum 550) (JNum 8)
                         (JStr "abc") JUndefined)) = [].
Proof.
  assert ("POST" ≠ "GET") as Hm by discriminate.
  destruct (rateMovie_sends_no_query (new_TMDBApiBase "KEY")) as [Hany Hrate].
  split_and!; [exact Hm| |].
  - exact (proj1 (Hany "/movie/550/rating" [("session_id", JStr "abc")] "POST"
                    (JObj [("value", JNum 8)]) Hm)).
  - exact (proj1 (proj2 (Hrate (JNum 550) (JNum 8) (JStr "abc") JUndefined))).
Defined.

(** X2.  The four list endpoints build the same query and differ in their
    path only: the [api_key], then [page] (1 when omitted) and [language]
    ("ko-KR" when omitted), each dropped when it is passed as [null], then
    [region] exactly when it is truthy (an empty string is not sent). *)
Theorem list_endpoints_query (api : TMDBApiBase) (page language region : JsValue) :
  let shown k v := if nullish v then [] else [(k, to_string v)] in
  let query :=
    [("api_key", apiKey api)]
    ++ shown "page" (default_param page (JNum 1))
    ++ shown "language" (default_param language (JStr "ko-KR"))
    ++ (if truthy region then [("region", to_string region)] else []) in
  url (Endpoints.getPopularMovies api page language region)
  = {| href := baseUrl api +:+ "/movie/popular"; searchParams := query |}
  ∧ url (Endpoints.getTopRatedMovies api page language region)
    = {| href := baseUrl api +:+ "/movie/top_rated"; searchParams := query |}
  ∧ url (Endpoints.getNowPlayingMovies api page language region)
    = {| href := baseUrl api +:+ "/movie/now_playing"; searchParams := query |}
  ∧ url (Endpoints.getUpcomingMovies api page language region)
    = {| href := baseUrl api +:+ "/movie/upcoming"; searchParams := query |}.
Proof.
  cbn zeta.
  unfold Endpoints.getPopularMovies, Endpoints.getTopRatedMovies,
    Endpoints.getNowPlayingMovies, Endpoints.getUpcomingMovies, makeRequest.
  cbn [url]. rewrite !request_url_GET_full.
  destruct (truthy region) eqn:Hregion.
  - rewrite (truthy_default_param region JNull Hregion), Hregion.
    pose proof (truthy_not_nullish region Hregion) as Hn.
    unfold query_pair. cbn -[to_string default_param nullish]. rewrite Hn.
    by destruct (nullish (default_param page _)), (nullish (default_param language _)).
  - rewrite (falsy_default_param region JNull Hregion eq_refl).
    unfold query_pair. cbn -[to_string default_param nullish].
    by destruct (nullish (default_param page _)), (nullish (default_param language _)).
Qed.

(** X3.  The query of [searchMovies]: the [api_key], then [query], [page],
    [language] and [include_adult], each present unless its value is [null]
    or [undefined] (so [include_adult=false] is sent, and a search without a
    query sends none), then [region], [year] and [primary_release_year],
    each exactly when it is truthy (the year 0 is not sent). *)
Theorem searchMovies_query (api : TMDBApiBase)
    (query page language region year primaryReleaseYear includeAdult : JsValue) :
  let shown k v := if nullish v then [] else [(k, to_string v)] in
  let optional k v := if truthy v then [(k, to_string v)] else [] in
  url (Endpoints.searchMovies api query page language region year primaryReleaseYear
         includeAdult)
  = {| href := baseUrl api +:+ "/search/movie";
       searchParams :=
         [("api_key", apiKey api)]
         ++ shown "query" query
         ++ shown "page" (default_param page (JNum 1))
         ++ shown "language" (default_param language (JStr "ko-KR"))
         ++ shown "include_adult" (default_param includeAdult (JBool false))
         ++ optional "region" region
         ++ optional "year" year
         ++ optional "primary_release_year" primaryReleaseYear |}.
Proof.
  cbn zeta. unfold Endpoints.searchMovies, makeRequest. cbn [url].
  rewrite request_url_GET_full.
  assert (∀ v, truthy v = false → truthy (default_param v JNull) = false) as Hfalsy
    by (intros v Hv; by apply falsy_default_param).
  destruct (truthy region) eqn:Hregion;
    [rewrite (truthy_default_param region JNull Hregion), Hregion;
     pose proof (truthy_not_nullish region Hregion) as Hn1
    |rewrite (Hfalsy region Hregion)];
    (destruct (truthy year) eqn:Hyear;
     [rewrite (truthy_default_param year JNull Hyear), Hyear;
      pose proof (truthy_not_nullish year Hyear) as Hn2
     |rewrite (Hfalsy year Hyear)]);
    (destruct (truthy primaryReleaseYear) eqn:Hpry;
     [rewrite (truthy_default_param primaryReleaseYear JNull Hpry), Hpry;
      pose proof (truthy_not_nullish primaryReleaseYear Hpry) as Hn3
     |rewrite (Hfalsy primaryReleaseYear Hpry)]);
    unfold query_pair; cbn -[to_string default_param nullish];
    rewrite ?Hn1, ?Hn2, ?Hn3;
    by destruct (nullish query), (nullish (default_param page _)),
         (nullish (default_param language _)), (nullish (default_param includeAdult _)).
Qed.

(** X4.  [discoverMovies] and [discoverTVShows] send, for every key, the
    value the caller gives when the caller's object has the key and the
    default ([language=ko-KR], [sort_by=popularity.desc], [page=1])
    otherwise; a key the caller sets to [null] or [undefined] is sent with
    no value at all, its default included. *)
Theorem discover_query (api : TMDBApiBase) (fields : list (string * JsValue)) :
  NoDup (fields.*1) →
  let defaults := [("language", JStr "ko-KR"); ("sort_by", JStr "popularity.desc");
                   ("page", JNum 1)] in
  let merged k := match assoc k fields with Some v => Some v | None => assoc k defaults end in
  let sent (q : list (string * string)) :=
    ∀ k s, (k, s) ∈ q ↔
      (k = "api_key" ∧ s = apiKey api)
      ∨ ∃ v, merged k = Some v ∧ nullish v = false ∧ s = to_string v in
  sent (searchParams (url (Endpoints.discoverMovies api (JObj fields))))
  ∧ sent (searchParams (url (Endpoints.discoverTVShows api (JObj fields))))
  ∧ href (url (Endpoints.discoverMovies api (JObj fields))) = baseUrl api +:+ "/discover/movie"
  ∧ href (url (Endpoints.discoverTVShows api (JObj fields))) = baseUrl api +:+ "/discover/tv"
  ∧ searchParams (url (Endpoints.discoverMovies api JUndefined))
    = [("api_key", apiKey api); ("language", "ko-KR"); ("sort_by", "popularity.desc");
       ("page", "1")].
Proof.
  intros Hnd. cbn zeta.
  unfold Endpoints.discoverMovies, Endpoints.discoverTVShows, makeRequest.
  cbn [url default_param]. rewrite !request_url_GET_full. cbn [href searchParams].
  assert (∀ k s,
            (k, s) ∈ ("api_key", apiKey api)
                     :: omap (query_pair
                                (Endpoints.spread_onto
                                   [("language", JStr "ko-KR");
                                    ("sort_by", JStr "popularity.desc"); ("page", JNum 1)]
                                   (JObj fields)))
                          (Endpoints.spread_onto
                             [("language", JStr "ko-KR");
                              ("sort_by", JStr "popularity.desc"); ("page", JNum 1)]
                             (JObj fields)).*1
            ↔ (k = "api_key" ∧ s = apiKey api)
              ∨ ∃ v, match assoc k fields with
                     | Some v => Some v
                     | None => assoc k [("language", JStr "ko-KR");
                                        ("sort_by", JStr "popularity.desc"); ("page", JNum 1)]
                     end = Some v ∧ nullish v = false ∧ s = to_string v) as Hsent.
  { intros k s. rewrite elem_of_cons, elem_of_query, assoc_spread_onto by done.
    split; (intros [Hkey|Hv]; [left|by right]).
    - by injection Hkey as -> ->.
    - by destruct Hkey as [-> ->]. }
  split_and!; [exact Hsent|exact Hsent|done|done|].
  vm_compute. reflexivity.
Qed.

Lemma discover_query_witness :
  let fields := [("with_genres", JStr "28"); ("language", JNull); ("page", JNum 3)] in
  NoDup (fields.*1)
  ∧ ∀ k s, (k, s) ∈ searchParams (url (Endpoints.discoverMovies (new_TMDBApiBase "KEY")
                                         (JObj fields))) ↔
      (k = "api_key" ∧ s = "KEY")
      ∨ ∃ v, match assoc k fields with
             | Some v => Some v
             | None => assoc k [("language", JStr "ko-KR");
                                ("sort_by", JStr "popularity.desc"); ("page", JNum 1)]
             end = Some v ∧ nullish v = false ∧ s = to_string v.
Proof.
  intros fields.
  assert (NoDup (fields.*1)) as Hnd by (apply (bool_decide_unpack _); vm_compute; exact I).
  split; [exact Hnd|].
  exact (proj1 (discover_query (new_TMDBApiBase "KEY") fields Hnd)).
Defined.

(** X5.  The five image helpers return [null] for a falsy path whatever the
    size; for any other path and no size, each builds the address with its
    own default size, and that size is one of those [getImageSizes] lists for
    the kind of image. *)
Theorem image_helpers_default_sizes (api : TMDBApiBase) (path : JsValue) :
  let built (helper : TMDBApiBase → JsValue → JsValue → JsValue) (kind : string) :=
    ∃ size sizes,
      get_prop Endpoints.getImageSizes kind = Normal (JArr sizes)
      ∧ JStr size ∈ sizes
      ∧ helper api path JUndefined
        = JStr (imageBaseUrl api +:+ "/" +:+ size +:+ to_string path) in
  (truthy path = false →
   ∀ size, Endpoints.getBackdropUrl api path size = JNull
           ∧ Endpoints.getPosterUrl api path size = JNull
           ∧ Endpoints.getProfileUrl api path size = JNull
           ∧ Endpoints.getLogoUrl api path size = JNull
           ∧ Endpoints.getStillUrl api path size = JNull)
  ∧ (truthy path = true →
     built Endpoints.getBackdropUrl "backdrop_sizes"
     ∧ built Endpoints.getPosterUrl "poster_sizes"
     ∧ built Endpoints.getProfileUrl "profile_sizes"
     ∧ built Endpoints.getLogoUrl "logo_sizes"
     ∧ built Endpoints.getStillUrl "still_sizes").
Proof.
  cbn zeta. split.
  - intros Hp size.
    unfold Endpoints.getBackdropUrl, Endpoints.getPosterUrl, Endpoints.getProfileUrl,
      Endpoints.getLogoUrl, Endpoints.getStillUrl, getImageUrl.
    by rewrite Hp.
  - intros Hp.
    unfold Endpoints.getBackdropUrl, Endpoints.getPosterUrl, Endpoints.getProfileUrl,
      Endpoints.getLogoUrl, Endpoints.getStillUrl, getImageUrl.
    rewrite Hp. cbn [negb default_param to_string].
    split_and!; eexists _, _; (split_and!; [reflexivity| |reflexivity]); set_solver.
Qed.

Lemma image_helpers_default_sizes_witness :
  truthy (JStr "/abc.jpg") = true
  ∧ truthy JNull = false
  ∧ Endpoints.getBackdropUrl (new_TMDBApiBase "KEY") JNull (JStr "w780") = JNull
  ∧ ∃ size sizes,
      get_prop Endpoints.getImageSizes "still_sizes" = Normal (JArr sizes)
      ∧ JStr size ∈ sizes
      ∧ Endpoints.getStillUrl (new_TMDBApiBase "KEY") (JStr "/abc.jpg") JUndefined
        = JStr (imageBaseUrl (new_TMDBApiBase "KEY") +:+ "/" +:+ size
                +:+ to_string (JStr "/abc.jpg")).
Proof.
  destruct (image_helpers_default_sizes (new_TMDBApiBase "KEY") JNull) as [Hnull _].
  destruct (image_helpers_default_sizes (new_TMDBApiBase "KEY") (JStr "/abc.jpg"))
    as [_ Hbuilt].
  split_and!; [reflexivity|reflexivity|exact (proj1 (Hnull eq_refl (JStr "w780")))|].
  exact (proj2 (proj2 (proj2 (proj2 (Hbuilt eq_refl))))).
Defined.

(** ** The cache slice *)

Section CacheSlice.
Import MovieCache.
Context {T : ActionTypes}.
Implicit Types (s : State) (a : Action).

Lemma reducer_remove now s movieId :
  distinct T →
  movieCacheReducer now s (removeFromCache movieId)
  = Normal {| details := delete (to_property_key movieId) (details s);
              lastFetched := delete (to_property_key movieId) (lastFetched s);
              loading := loading s;
              error := error s |}.
Proof. intros Hd. unfold movieCacheReducer. simpl. by type_eqb Hd. Qed.

Lemma reducer_clear now s :
  distinct T →
  movieCacheReducer now s clearMovieCache
  = Normal {| details := ∅; lastFetched := ∅; loading := loading s; error := error s |}.
Proof. intros Hd. unfold movieCacheReducer. simpl. by type_eqb Hd. Qed.

(** The keys of two different integers are different. *)
Lemma integer_keys_differ (m n : Z) :
  m ≠ n → to_property_key (JNum m) ≠ to_property_key (JNum n).
Proof. intros Hne Heq. apply Hne. by apply (inj pretty). Qed.

End CacheSlice.

Section CacheStore.
Import Store.
Context {T : ActionTypes}.
Implicit Types (w : World).

(** A call whose test fails does not resolve in its first phase. *)
Lemma run_fetchMovieDetail_miss genv tmdb movieId forceRefresh w v :
  cache_test (store w) (clock w) movieId (default_param forceRefresh (JBool false)) = false →
  (run genv (fetchMovieDetail tmdb movieId forceRefresh) w).1 ≠ Resolved v.
Proof.
  intros Htest. cbn [fetchMovieDetail run]. rewrite Htest. cbn [run].
  destruct (genv "dispatch"); [done|]. by destruct (dispatch _ w).
Qed.

Lemma dispatch_remove movieId w :
  distinct T →
  dispatch (MovieCache.removeFromCache movieId) w
  = Normal (set_store
              {| movieCache :=
                   {| MovieCache.details :=
                        delete (to_property_key movieId)
                          (MovieCache.details (movieCache (store w)));
                      MovieCache.lastFetched :=
                        delete (to_property_key movieId)
                          (MovieCache.lastFetched (movieCache (store w)));
                      MovieCache.loading := MovieCache.loading (movieCache (store w));
                      MovieCache.error := MovieCache.error (movieCache (store w)) |};
                 movieDetails := movieDetails (store w) |} w).
Proof.
  intros Hd. unfold dispatch, rootReducer. rewrite reducer_remove by done.
  cbn [mbind completion_bind]. unfold MovieDetails.movieDetailsReducer.
  cbn [type MovieCache.removeFromCache]. by type_eqb Hd.
Qed.

Lemma dispatch_clear w :
  distinct T →
  dispatch MovieCache.clearMovieCache w
  = Normal (set_store
              {| movieCache :=
                   {| MovieCache.details := ∅;
                      MovieCache.lastFetched := ∅;
                      MovieCache.loading := MovieCache.loading (movieCache (store w));
                      MovieCache.error := MovieCache.error (movieCache (store w)) |};
                 movieDetails := movieDetails (store w) |} w).
Proof.
  intros Hd. unfold dispatch, rootReducer. rewrite reducer_clear by done.
  cbn [mbind completion_bind]. unfold MovieDetails.movieDetailsReducer.
  cbn [type MovieCache.clearMovieCache]. by type_eqb Hd.
Qed.

(** The test of [fetchMovieDetail] for a movie reads the entries under the
    key of that movie only. *)
Lemma cache_test_local state state' now movieId forceRefresh :
  MovieCache.details (movieCache state') !! to_property_key movieId
  = MovieCache.details (movieCache state) !! to_property_key movieId →
  MovieCache.lastFetched (movieCache state') !! to_property_key movieId
  = MovieCache.lastFetched (movieCache state) !! to_property_key movieId →
  cache_test state' now movieId forceRefresh = cache_test state now movieId forceRefresh.
Proof. intros Hdet Hlast. unfold cache_test. by rewrite Hdet, Hlast. Qed.

End CacheStore.

(** X6.  [removeFromCache(movieId)] evicts the entry of that movie and no
    other: its value and its time of fetch are gone, the loading flags and
    the error stay.  The next call of [fetchMovieDetail] for the movie does
    not answer from the cache, and whether a call for a movie with another
    key would is not changed. *)
Theorem removeFromCache_evicts {T : ActionTypes} (Hd : distinct T)
    (movieId : JsValue) (w : Store.World) :
  ∃ w', Store.dispatch (MovieCache.removeFromCache movieId) w = Normal w'
    ∧ MovieCache.details (Store.movieCache (Store.store w')) !! to_property_key movieId = None
    ∧ MovieCache.lastFetched (Store.movieCache (Store.store w')) !! to_property_key movieId
      = None
    ∧ (∀ k, k ≠ to_property_key movieId →
         MovieCache.details (Store.movieCache (Store.store w')) !! k
         = MovieCache.details (Store.movieCache (Store.store w)) !! k
         ∧ MovieCache.lastFetched (Store.movieCache (Store.store w')) !! k
           = MovieCache.lastFetched (Store.movieCache (Store.store w)) !! k)
    ∧ MovieCache.loading (Store.movieCache (Store.store w'))
      = MovieCache.loading (Store.movieCache (Store.store w))
    ∧ MovieCache.error (Store.movieCache (Store.store w'))
      = MovieCache.error (Store.movieCache (Store.store w))
    ∧ (∀ genv tmdb forceRefresh now v,
         (Store.run genv (Store.fetchMovieDetail tmdb movieId forceRefresh)
            (Store.set_clock now w')).1 ≠ Store.Resolved v)
    ∧ (∀ other forceRefresh now,
         to_property_key other ≠ to_property_key movieId →
         Store.cache_test (Store.store w') now other forceRefresh
         = Store.cache_test (Store.store w) now other forceRefresh).
Proof.
  eexists. split; [by apply dispatch_remove|].
  cbn [Store.store Store.set_store Store.movieCache MovieCache.details
       MovieCache.lastFetched MovieCache.loading MovieCache.error].
  split_and!; [apply lookup_delete_eq|apply lookup_delete_eq| |done|done| |].
  - intros k Hk. by rewrite !lookup_delete_ne.
  - intros genv tmdb forceRefresh now v. apply run_fetchMovieDetail_miss.
    apply cache_test_no_timestamp. cbn. apply lookup_delete_eq.
  - intros other forceRefresh now Hne.
    apply cache_test_local; cbn; by rewrite lookup_delete_ne.
Qed.

Lemma removeFromCache_evicts_witness :
  let cache := {| MovieCache.details := {["550" := JObj [("id", JNum 550)]]};
                  MovieCache.lastFetched := {["550" := 1000%Z]};
                  MovieCache.loading := ∅;
                  MovieCache.error := JNull |} in
  let w := {| Store.store := {| Store.movieCache := cache;
                                Store.movieDetails := MovieDetails.initialState |};
              Store.clock := 2000; Store.network := [] |} in
  distinct named_types
  ∧ (Store.run (T:=named_types) dispatch_bound
       (Store.fetchMovieDetail (T:=named_types) (new_TMDBApiBase "KEY") (JNum 550) JUndefined)
       w).1 = Store.Resolved (JObj [("id", JNum 550)])
  ∧ ∃ w', Store.dispatch (T:=named_types)
            (MovieCache.removeFromCache (T:=named_types) (JNum 550)) w = Normal w'
          ∧ MovieCache.details (Store.movieCache (Store.store w')) !! "550" = None.
Proof.
  intros cache w.
  destruct (removeFromCache_evicts (T:=named_types) named_types_distinct (JNum 550) w)
    as (w' & Hw' & Hdet & _).
  split_and!; [exact named_types_distinct|reflexivity|].
  exists w'. split; [exact Hw'|exact Hdet].
Defined.

(** X7.  [clearMovieCache()] empties [details] and [lastFetched] and keeps
    the loading flags and the error; after it no call of [fetchMovieDetail]
    answers from the cache, whatever the movie and the time. *)
Theorem clearMovieCache_empties {T : ActionTypes} (Hd : distinct T) (w : Store.World) :
  ∃ w', Store.dispatch MovieCache.clearMovieCache w = Normal w'
    ∧ MovieCache.details (Store.movieCache (Store.store w')) = ∅
    ∧ MovieCache.lastFetched (Store.movieCache (Store.store w')) = ∅
    ∧ MovieCache.loading (Store.movieCache (Store.store w'))
      = MovieCache.loading (Store.movieCache (Store.store w))
    ∧ MovieCache.error (Store.movieCache (Store.store w'))
      = MovieCache.error (Store.movieCache (Store.store w))
    ∧ Store.movieDetails (Store.store w') = Store.movieDetails (Store.store w)
    ∧ (∀ genv tmdb movieId forceRefresh now v,
         (Store.run genv (Store.fetchMovieDetail tmdb movieId forceRefresh)
            (Store.set_clock now w')).1 ≠ Store.Resolved v).
Proof.
  eexists. split; [by apply dispatch_clear|].
  cbn [Store.store Store.set_store Store.movieCache Store.movieDetails MovieCache.details
       MovieCache.lastFetched MovieCache.loading MovieCache.error].
  split_and!; [done..|].
  intros genv tmdb movieId forceRefresh now v. apply run_fetchMovieDetail_miss.
  apply cache_test_no_timestamp. cbn. apply lookup_empty.
Qed.

Lemma clearMovieCache_empties_witness :
  let cache := {| MovieCache.details := {["550" := JObj [("id", JNum 550)]]};
                  MovieCache.lastFetched := {["550" := 1000%Z]};
                  MovieCache.loading := {["550" := false]};
                  MovieCache.error := JNull |} in
  let w := {| Store.store := {| Store.movieCache := cache;
                                Store.movieDetails := MovieDetails.initialState |};
              Store.clock := 2000; Store.network := [] |} in
  distinct named_types
  ∧ ∃ w', Store.dispatch (T:=named_types) (MovieCache.clearMovieCache (T:=named_types)) w
          = Normal w'
          ∧ MovieCache.details (Store.movieCache (Store.store w')) = ∅
          ∧ MovieCache.loading (Store.movieCache (Store.store w')) = {["550" := false]}.
Proof.
  intros cache w.
  destruct (clearMovieCache_empties (T:=named_types) named_types_distinct w)
    as (w' & Hw' & Hdet & _ & Hload & _).
  split; [exact named_types_distinct|].
  exists w'. split_and!; [exact Hw'|exact Hdet|exact Hload].
Defined.

(** X8.  The loading flag and the error of a fetch, as the actions follow
    one another: the request sets the flag of the movie and clears the error;
    a success or a failure after it clears the flag; after the success the
    error is still cleared, after the failure it is the one the action
    carries.  A success on its own does not clear an error that is there,
    and none of the three actions touches the flag of another key. *)
Theorem loading_flag_lifecycle {T : ActionTypes} (Hd : distinct T)
    (movieId : JsValue) (w : Store.World) :
  let flag w' := MovieCache.loading (Store.movieCache (Store.store w')) in
  let err w' := MovieCache.error (Store.movieCache (Store.store w')) in
  (∃ w1, Store.dispatch (MovieCache.fetchMovieDetailRequest movieId) w = Normal w1
     ∧ flag w1 !! to_property_key movieId = Some true
     ∧ err w1 = JNull
     ∧ (∀ k, k ≠ to_property_key movieId → flag w1 !! k = flag w !! k)
     ∧ (∀ data, ∃ w2,
          Store.dispatch (MovieCache.fetchMovieDetailSuccess movieId data) w1 = Normal w2
          ∧ flag w2 !! to_property_key movieId = Some false
          ∧ err w2 = JNull
          ∧ ∀ k, k ≠ to_property_key movieId → flag w2 !! k = flag w !! k)
     ∧ (∀ e, ∃ w2,
          Store.dispatch (MovieCache.fetchMovieDetailFailure movieId e) w1 = Normal w2
          ∧ flag w2 !! to_property_key movieId = Some false
          ∧ err w2 = e
          ∧ ∀ k, k ≠ to_property_key movieId → flag w2 !! k = flag w !! k))
  ∧ (∀ data, ∃ w2,
       Store.dispatch (MovieCache.fetchMovieDetailSuccess movieId data) w = Normal w2
       ∧ err w2 = err w).
Proof.
  cbn zeta. split.
  - eexists. split; [by apply dispatch_request|].
    cbn [Store.store Store.set_store Store.movieCache MovieCache.loading MovieCache.error].
    split_and!.
    + apply lookup_insert_eq.
    + done.
    + intros k Hk. by rewrite lookup_insert_ne.
    + intros data. eexists. split; [by apply dispatch_success|].
      cbn [Store.store Store.set_store Store.movieCache MovieCache.loading MovieCache.error].
      split_and!; [apply lookup_insert_eq|done|].
      intros k Hk. by rewrite !lookup_insert_ne.
    + intros e. eexists. split; [by apply dispatch_failure|].
      cbn [Store.store Store.set_store Store.movieCache MovieCache.loading MovieCache.error].
      split_and!; [apply lookup_insert_eq|done|].
      intros k Hk. by rewrite !lookup_insert_ne.
  - intros data. eexists. split; [by apply dispatch_success|]. done.
Qed.

Lemma loading_flag_lifecycle_witness :
  let w := {| Store.store := Store.initialState; Store.clock := 1000; Store.network := [] |} in
  distinct named_types
  ∧ ∃ w1, Store.dispatch (T:=named_types)
            (MovieCache.fetchMovieDetailRequest (T:=named_types) (JNum 550)) w = Normal w1
          ∧ MovieCache.loading (Store.movieCache (Store.store w1)) !! "550" = Some true.
Proof.
  intros w.
  destruct (loading_flag_lifecycle (T:=named_types) named_types_distinct (JNum 550) w)
    as [(w1 & Hw1 & Hflag & _) _].
  split; [exact named_types_distinct|]. exists w1. split; [exact Hw1|exact Hflag].
Defined.

(** X9.  The entries of two movies with different identifiers, both safe
    integers, are apart: an action about the one (request, success, failure,
    eviction) leaves the value, the time of fetch and the loading flag of
    the other as they are.  A safe integer and its decimal numeral given as
    a string are the same key. *)
Theorem actions_touch_one_movie {T : ActionTypes} (Hd : distinct T)
    (m n : Z) (now : Z) (s : MovieCache.State) (data err : JsValue) :
  isSafeInteger m = true →
  isSafeInteger n = true →
  m ≠ n →
  (∀ a, a ∈ [MovieCache.fetchMovieDetailRequest (JNum m);
             MovieCache.fetchMovieDetailSuccess (JNum m) data;
             MovieCache.fetchMovieDetailFailure (JNum m) err;
             MovieCache.removeFromCache (JNum m)] →
     ∃ s', MovieCache.movieCacheReducer now s a = Normal s'
       ∧ MovieCache.details s' !! to_property_key (JNum n)
         = MovieCache.details s !! to_property_key (JNum n)
       ∧ MovieCache.lastFetched s' !! to_property_key (JNum n)
         = MovieCache.lastFetched s !! to_property_key (JNum n)
       ∧ MovieCache.loading s' !! to_property_key (JNum n)
         = MovieCache.loading s !! to_property_key (JNum n))
  ∧ MovieCache.movieCacheReducer now s (MovieCache.removeFromCache (JStr (pretty m)))
    = MovieCache.movieCacheReducer now s (MovieCache.removeFromCache (JNum m)).
Proof.
  intros _ _ Hmn. pose proof (integer_keys_differ m n Hmn) as Hkeys.
  split; [|by rewrite !reducer_remove by done].
  intros a Ha.
  repeat (apply elem_of_cons in Ha as [->|Ha]); [| | | |by apply elem_of_nil in Ha].
  - rewrite reducer_request. eexists. split; [done|].
    cbn [MovieCache.details MovieCache.lastFetched MovieCache.loading].
    by rewrite lookup_insert_ne.
  - rewrite reducer_success by done. eexists. split; [done|].
    cbn [MovieCache.details MovieCache.lastFetched MovieCache.loading].
    by rewrite !lookup_insert_ne.
  - rewrite reducer_failure by done. eexists. split; [done|].
    cbn [MovieCache.details MovieCache.lastFetched MovieCache.loading].
    by rewrite lookup_insert_ne.
  - rewrite reducer_remove by done. eexists. split; [done|].
    cbn [MovieCache.details MovieCache.lastFetched MovieCache.loading].
    by rewrite !lookup_delete_ne.
Qed.

Lemma actions_touch_one_movie_witness :
  let s := {| MovieCache.details := {["603" := JObj [("id", JNum 603)]]};
              MovieCache.lastFetched := ∅;
              MovieCache.loading := {["603" := true]};
              MovieCache.error := JNull |} in
  distinct named_types
  ∧ isSafeInteger 550 = true
  ∧ isSafeInteger 603 = true
  ∧ (550 ≠ 603)%Z
  ∧ ∃ s', MovieCache.movieCacheReducer (T:=named_types) 1000 s
            (MovieCache.removeFromCache (T:=named_types) (JNum 550)) = Normal s'
          ∧ MovieCache.details s' !! to_property_key (JNum 603)
            = MovieCache.details s !! to_property_key (JNum 603).
Proof.
  intros s. assert (550 ≠ 603)%Z as Hne by lia.
  destruct (actions_touch_one_movie (T:=named_types) named_types_distinct 550 603 1000 s
              JNull JNull eq_refl eq_refl Hne) as [Hframe _].
  destruct (Hframe (MovieCache.removeFromCache (T:=named_types) (JNum 550)))
    as (s' & Hs' & Hdet & _); [set_solver|].
  split_and!; [exact named_types_distinct|reflexivity|reflexivity|exact Hne|].
  exists s'. split; [exact Hs'|exact Hdet].
Defined.

(** X10.  When the reducers throw.  The cache reducer throws exactly on a
    request, success or failure action whose payload is [null] or
    [undefined]; the details reducer exactly on a more-reviews success or a
    full-details failure action with such a payload.  On every other action
    each returns a state, and a dispatch that throws leaves the store as it
    was. *)
Theorem reducers_throw_exactly {T : ActionTypes} (Hd : distinct T) (a : Action) :
  (∀ now s, (∃ e, MovieCache.movieCacheReducer now s a = Abrupt e) ↔
     nullish (payload a) = true
     ∧ type a ∈ [FETCH_MOVIE_DETAIL_REQUEST; FETCH_MOVIE_DETAIL_SUCCESS;
                 FETCH_MOVIE_DETAIL_FAILURE])
  ∧ (∀ s, (∃ e, MovieDetails.movieDetailsReducer s a = Abrupt e) ↔
       nullish (payload a) = true
       ∧ type a ∈ [FETCH_MORE_REVIEWS_SUCCESS; FETCH_MOVIE_FULL_DETAILS_FAILURE])
  ∧ (∀ genv k h w e, Store.dispatch a w = Abrupt e →
       Store.run genv (Store.Dispatch a k h) w = Store.run genv (h e) w).
Proof.
  split_and!.
  - intros now s. unfold MovieCache.movieCacheReducer. split.
    + intros [e He]. repeat case_match; try done;
        (destruct (get_prop (payload a) "movieId") as [x|e'] eqn:Hget;
         [cbn [mbind completion_bind] in He;
          try (destruct (get_prop_normal (payload a) "error") as [y Hy];
               [destruct (nullish (payload a)) eqn:Hn; [|done];
                assert (∃ e0, get_prop (payload a) "movieId" = Abrupt e0) as [e0 He0]
                  by (by apply get_prop_throws); congruence
               |rewrite Hy in He]);
          done
         |split; [apply (get_prop_throws (payload a) "movieId"); by eexists|]]);
        repeat match goal with
          | Heq : (_ === _) = true |- _ => apply String.eqb_eq in Heq; rewrite Heq
          end; set_solver.
    + intros [Hn Hty].
      destruct (proj2 (get_prop_throws (payload a) "movieId") Hn) as [e He].
      repeat (apply elem_of_cons in Hty as [->|Hty]); [| | |by apply elem_of_nil in Hty];
        type_eqb Hd; rewrite He; by eexists.
  - intros s. unfold MovieDetails.movieDetailsReducer, MovieDetails.case_store_details.
    split.
    + intros [e He]. repeat case_match; try done.
      * destruct (get_prop (payload a) "id") as [x|e'] eqn:Hget.
        -- destruct (nullish (payload a)) eqn:Hn.
           ++ assert (∃ e0, get_prop (payload a) "id" = Abrupt e0) as [e0 He0]
                by (by apply get_prop_throws). congruence.
           ++ destruct (get_prop_normal (payload a) "reviews" Hn) as [y Hy].
              destruct (get_prop_normal (payload a) "reviewsTotalPages" Hn) as [z Hz].
              cbn [mbind completion_bind] in He. rewrite Hy, Hz in He. done.
        -- split; [apply (get_prop_throws (payload a) "id"); by eexists|].
           match goal with
           | Heq : (type a === FETCH_MORE_REVIEWS_SUCCESS) = true |- _ =>
               apply String.eqb_eq in Heq; rewrite Heq end. set_solver.
      * destruct (get_prop (payload a) "error") as [x|e'] eqn:Hget; [done|].
        split; [apply (get_prop_throws (payload a) "error"); by eexists|].
        match goal with
        | Heq : (type a === FETCH_MOVIE_FULL_DETAILS_FAILURE) = true |- _ =>
            apply String.eqb_eq in Heq; rewrite Heq end. set_solver.
    + intros [Hn Hty].
      repeat (apply elem_of_cons in Hty as [->|Hty]); [| |by apply elem_of_nil in Hty];
        type_eqb Hd.
      * destruct (proj2 (get_prop_throws (payload a) "id") Hn) as [e He].
        rewrite He. by eexists.
      * destruct (proj2 (get_prop_throws (payload a) "error") Hn) as [e He].
        rewrite He. by eexists.
  - intros genv k h w e He. cbn [Store.run]. by rewrite He.
Qed.

Lemma reducers_throw_exactly_witness :
  let a := mkAction "FETCH_MOVIE_DETAIL_REQUEST" JUndefined in
  distinct named_types
  ∧ (∃ e, MovieCache.movieCacheReducer (T:=named_types) 1000 MovieCache.initialState a
          = Abrupt e)
  ∧ ¬ (∃ e, MovieDetails.movieDetailsReducer (T:=named_types) MovieDetails.initialState a
            = Abrupt e).
Proof.
  intros a.
  destruct (reducers_throw_exactly (T:=named_types) named_types_distinct a)
    as (Hcache & Hdetails & _).
  split_and!; [exact named_types_distinct| |].
  - apply (Hcache 1000%Z MovieCache.initialState). split; [reflexivity|].
    apply list_elem_of_In. left. reflexivity.
  - intros Hthrows. apply (Hdetails MovieDetails.initialState) in Hthrows as [_ Hty].
    apply list_elem_of_In in Hty. destruct Hty as [Hty|[Hty|[]]]; discriminate Hty.
Defined.

(** X11.  When [fetchMovieDetail] answers from the cache.  Its promise is
    resolved by the first phase of the call exactly when no refresh is
    forced, the value cached for the movie is truthy, a time of fetch is
    recorded for it and less than 3 600 000 ms have passed since; the value is
    then the cached one, no request is sent and the store is not touched.  A
    forced refresh, a cached value that is falsy, and an age of exactly
    3 600 000 ms all go on to the fetch. *)
Theorem fetchMovieDetail_answers_from_cache {T : ActionTypes}
    (genv : string → Binding) (tmdb : TMDBApiBase) (movieId forceRefresh : JsValue)
    (w : Store.World) (v : JsValue) :
  let first := Store.run genv (Store.fetchMovieDetail tmdb movieId forceRefresh) w in
  (first.1 = Store.Resolved v ↔
     truthy (default_param forceRefresh (JBool false)) = false
     ∧ MovieCache.details (Store.movieCache (Store.store w)) !! to_property_key movieId
       = Some v
     ∧ truthy v = true
     ∧ ∃ fetched,
         MovieCache.lastFetched (Store.movieCache (Store.store w)) !! to_property_key movieId
         = Some fetched
         ∧ (Store.clock w - fetched < 3600000)%Z)
  ∧ (first.1 = Store.Resolved v → first.2 = w).
Proof.
  cbn zeta.
  destruct (Store.cache_test (Store.store w) (Store.clock w) movieId
              (default_param forceRefresh (JBool false))) eqn:Htest.
  - rewrite run_fetchMovieDetail_hit by done. cbn [fst snd]. split; [|done].
    apply cache_test_true in Htest as (Hforce & v' & fetched & Hv' & Htruthy & Hf & Hage).
    rewrite Hv'. cbn [default from_option id]. split.
    + intros [= <-]. eauto 10.
    + intros (_ & [= ->] & _). done.
  - split.
    + split.
      * intros Hres. by apply run_fetchMovieDetail_miss in Hres.
      * intros (Hforce & Hv & Htruthy & fetched & Hf & Hage).
        assert (Store.cache_test (Store.store w) (Store.clock w) movieId
                  (default_param forceRefresh (JBool false)) = true) as Htrue
          by (apply cache_test_true; eauto 10).
        congruence.
    + intros Hres. by apply run_fetchMovieDetail_miss in Hres.
Qed.

Lemma fetchMovieDetail_answers_from_cache_witness :
  let cache := {| MovieCache.details := {["550" := JObj [("id", JNum 550)]]};
                  MovieCache.lastFetched := {["550" := 1000%Z]};
                  MovieCache.loading := ∅;
                  MovieCache.error := JNull |} in
  let w (now : Z) :=
    {| Store.store := {| Store.movieCache := cache;
                         Store.movieDetails := MovieDetails.initialState |};
       Store.clock := now; Store.network := [] |} in
  let call force (now : Z) :=
    Store.run (T:=named_types) browser_globals
      (Store.fetchMovieDetail (T:=named_types) (new_TMDBApiBase "KEY") (JNum 550) force)
      (w now) in
  (call JUndefined 3600999%Z).1 = Store.Resolved (JObj [("id", JNum 550)])
  ∧ (call JUndefined 3600999%Z).2 = w 3600999%Z
  ∧ (call JUndefined 3601000%Z).1 ≠ Store.Resolved (JObj [("id", JNum 550)])
  ∧ (call (JBool true) 2000%Z).1 ≠ Store.Resolved (JObj [("id", JNum 550)]).
Proof.
  intros cache w call.
  pose proof (fetchMovieDetail_answers_from_cache (T:=named_types) browser_globals
                (new_TMDBApiBase "KEY") (JNum 550)) as Hspec.
  assert ((call JUndefined 3600999%Z).1 = Store.Resolved (JObj [("id", JNum 550)])) as Hhit.
  { apply (Hspec JUndefined (w 3600999%Z)). split_and!; [reflexivity..|].
    exists 1000%Z. split; reflexivity. }
  split_and!; [exact Hhit|exact (proj2 (Hspec JUndefined (w 3600999%Z) _) Hhit)| |].
  - intros Hres. apply (Hspec JUndefined (w 3601000%Z)) in Hres
      as (_ & _ & _ & fetched & Hf & Hage).
    injection Hf as <-. vm_compute in Hage. discriminate Hage.
  - intros Hres. apply (Hspec (JBool true) (w 2000%Z)) in Hres as (Hforce & _).
    discriminate Hforce.
Defined.

(** X12.  Where [dispatch] is not defined, as in a browser, every call of
    [fetchMovieDetail] on a store in a reachable state is rejected with the
    [ReferenceError], whether or not a refresh is forced: no request is sent
    and the store is not touched. *)
Theorem fetchMovieDetail_rejected_in_browser {T : ActionTypes}
    (genv : string → Binding) (tmdb : TMDBApiBase) (movieId forceRefresh : JsValue)
    (w : Store.World) :
  genv "dispatch" = NotDefined →
  Store.reachable (Store.store w) →
  Store.run genv (Store.fetchMovieDetail tmdb movieId forceRefresh) w
  = (Store.Rejected (ReferenceError "dispatch is not defined"), w).
Proof.
  intros Hg Hreach. apply run_fetchMovieDetail_unbound; [done|].
  apply cache_test_no_timestamp. rewrite (reachable_lastFetched _ Hreach).
  apply lookup_empty.
Qed.

Lemma fetchMovieDetail_rejected_in_browser_witness :
  let w := {| Store.store := Store.initialState; Store.clock := 1000; Store.network := [] |} in
  browser_globals "dispatch" = NotDefined
  ∧ Store.reachable (T:=named_types) (Store.store w)
  ∧ Store.run (T:=named_types) browser_globals
      (Store.fetchMovieDetail (T:=named_types) (new_TMDBApiBase "KEY") (JNum 550) (JBool true)) w
    = (Store.Rejected (ReferenceError "dispatch is not defined"), w).
Proof.
  intros w. split_and!; [reflexivity|exact Store.reachable_init|].
  exact (fetchMovieDetail_rejected_in_browser (T:=named_types) browser_globals
           (new_TMDBApiBase "KEY") (JNum 550) (JBool true) w eq_refl
           Store.reachable_init).
Defined.

(** ** The details slice *)

Section DetailsSlice.
Import MovieDetails.
Context {T : ActionTypes}.
Implicit Types (s : State) (a : Action).

(** What a transition does to [reviews]: nothing, or it writes one entry, at
    page 1. *)
Lemma reducer_reviews_step s a s' :
  movieDetailsReducer s a = Normal s' →
  reviews s' = reviews s
  ∨ ∃ key e, reviews s' = <[key := e]> (reviews s) ∧ page e = JNum 1.
Proof.
  unfold movieDetailsReducer, case_store_details.
  repeat case_match; intros Hred; bind_inv Hred; subst s'; cbn [reviews];
    first [by left | right; by eexists _, _].
Qed.

Lemma reducer_reviesLoading s a s' :
  movieDetailsReducer s a = Normal s' →
  reviesLoading s' = reviesLoading s ∨ reviesLoading s' = Some true.
Proof.
  unfold movieDetailsReducer, case_store_details.
  repeat case_match; intros Hred; bind_inv Hred; subst s'; cbn [reviesLoading]; auto.
Qed.

(** [reviesLoading] after a transition, exactly. *)
Lemma reducer_reviesLoading_exact s a s' :
  distinct T →
  movieDetailsReducer s a = Normal s' →
  reviesLoading s'
  = if type a === FETCH_MORE_REVIEWS_REQUEST then Some true else reviesLoading s.
Proof.
  intros Hd.
  destruct (String.eqb_spec (type a) FETCH_MORE_REVIEWS_REQUEST) as [Heq|Hne].
  - unfold movieDetailsReducer. rewrite Heq. type_eqb Hd. by intros [= <-].
  - apply String.eqb_neq in Hne. unfold movieDetailsReducer, case_store_details.
    rewrite Hne.
    repeat case_match; intros Hred; bind_inv Hred; by subst s'.
Qed.

(** The same through the store; the request reads nothing of its payload
    and never throws. *)
Lemma step_reviesLoading s a :
  distinct T →
  reviesLoading (step s a)
  = if type a === FETCH_MORE_REVIEWS_REQUEST then Some true else reviesLoading s.
Proof.
  intros Hd. unfold step.
  destruct (movieDetailsReducer s a) as [s'|e] eqn:Hred.
  - by apply reducer_reviesLoading_exact.
  - destruct (String.eqb_spec (type a) FETCH_MORE_REVIEWS_REQUEST) as [Heq|_]; [|done].
    revert Hred. unfold movieDetailsReducer. rewrite Heq. by type_eqb Hd.
Qed.

End DetailsSlice.

(** X13.  In every reachable state of the details slice each stored
    resource is at page 1: no transition stores another page number, whatever
    page the merged action carries. *)
Theorem stored_page_is_always_1 {T : ActionTypes} (s : MovieDetails.State)
    (k : string) (e : MovieDetails.Reviews) :
  MovieDetails.reachable s →
  MovieDetails.reviews s !! k = Some e →
  MovieDetails.page e = JNum 1.
Proof.
  intros Hreach. revert k e.
  induction Hreach as [|s a s' _ IH Hstep]; intros k e.
  - cbn. by rewrite lookup_empty.
  - destruct (reducer_reviews_step _ _ _ Hstep) as [-> | (key & e' & -> & Hpage)];
      [apply IH|].
    destruct (decide (key = k)) as [->|Hne].
    + rewrite lookup_insert_eq. by intros [= <-].
    + rewrite lookup_insert_ne by done. apply IH.
Qed.

Lemma stored_page_is_always_1_witness :
  let a := MovieDetails.moreReviewsSuccess (T:=named_types) (JNum 550)
             (JArr [JStr "review 7"]) (JNum 4) (JNum 9) in
  let s := MovieDetails.step (T:=named_types) MovieDetails.initialState a in
  let e := {| MovieDetails.items := JArr [JStr "review 7"];
              MovieDetails.page := JNum 1;
              MovieDetails.totalPages := JUndefined |} in
  MovieDetails.reachable (T:=named_types) s
  ∧ MovieDetails.reviews s !! "undefined" = Some e
  ∧ MovieDetails.page e = JNum 1.
Proof.
  intros a s e.
  assert (MovieDetails.movieDetailsReducer (T:=named_types) MovieDetails.initialState a
          = Normal s) as Hstep by reflexivity.
  assert (MovieDetails.reachable (T:=named_types) s) as Hreach
    by exact (MovieDetails.reachable_step MovieDetails.initialState a s
                MovieDetails.reachable_init Hstep).
  assert (MovieDetails.reviews s !! "undefined" = Some e) as He by reflexivity.
  split_and!; [exact Hreach|exact He|].
  exact (stored_page_is_always_1 (T:=named_types) s "undefined" e Hreach He).
Defined.

(** X14.  The slice never drops a stored resource: a parent key that has an
    entry in [reviews] has one after every transition, [CLEAR_CURRENT_MOVIE]
    included, and so in every state reached later. *)
Theorem reviews_are_never_dropped {T : ActionTypes} (s : MovieDetails.State)
    (actions : list Action) (k : string) :
  is_Some (MovieDetails.reviews s !! k) →
  is_Some (MovieDetails.reviews (foldl MovieDetails.step s actions) !! k).
Proof.
  revert s. induction actions as [|a actions IH]; intros s Hk; [done|].
  cbn [foldl]. apply IH. unfold MovieDetails.step.
  destruct (MovieDetails.movieDetailsReducer s a) as [s'|e] eqn:Hstep; [|done].
  destruct (reducer_reviews_step _ _ _ Hstep) as [-> | (key & e' & -> & _)]; [done|].
  rewrite lookup_insert. case_decide; [by eexists|done].
Qed.

Lemma reviews_are_never_dropped_witness :
  let a := MovieDetails.moreReviewsSuccess (T:=named_types) JUndefined
             (JArr [JStr "review 1"]) (JNum 1) (JNum 3) in
  let s := MovieDetails.step (T:=named_types) MovieDetails.initialState a in
  is_Some (MovieDetails.reviews s !! "undefined")
  ∧ is_Some (MovieDetails.reviews
               (foldl (MovieDetails.step (T:=named_types)) s
                  [mkAction "CLEAR_CURRENT_MOVIE" JUndefined;
                   mkAction "FETCH_MOVIE_FULL_DETAILS_REQUEST" JUndefined])
             !! "undefined").
Proof.
  intros a s.
  assert (is_Some (MovieDetails.reviews s !! "undefined")) as Hk by (by eexists).
  split; [exact Hk|].
  exact (reviews_are_never_dropped (T:=named_types) s _ "undefined" Hk).
Defined.

(** X15.  The property [reviesLoading] is absent until the first request of
    more reviews and [true] from then on.  A transition gives it the value
    [true] when its action is that request and leaves it as it is, absent
    included, otherwise; so after a run of actions from a state it is
    [true] when one of them was the request and what it was in that state
    when none was, and no action, success or failure, takes it back. *)
Theorem reviesLoading_is_never_reset {T : ActionTypes} (Hd : distinct T) :
  (∀ s a s', MovieDetails.movieDetailsReducer s a = Normal s' →
     MovieDetails.reviesLoading s'
     = if type a === FETCH_MORE_REVIEWS_REQUEST then Some true
       else MovieDetails.reviesLoading s)
  ∧ (∀ s actions,
       (∀ a, a ∈ actions → type a ≠ FETCH_MORE_REVIEWS_REQUEST) →
       MovieDetails.reviesLoading (foldl MovieDetails.step s actions)
       = MovieDetails.reviesLoading s)
  ∧ (∀ s actions a,
       a ∈ actions → type a = FETCH_MORE_REVIEWS_REQUEST →
       MovieDetails.reviesLoading (foldl MovieDetails.step s actions) = Some true)
  ∧ (∀ s, MovieDetails.reachable s →
       MovieDetails.reviesLoading s = None ∨ MovieDetails.reviesLoading s = Some true)
  ∧ (∀ s actions,
       MovieDetails.reviesLoading s = Some true →
       MovieDetails.reviesLoading (foldl MovieDetails.step s actions) = Some true).
Proof.
  assert (∀ s actions,
            MovieDetails.reviesLoading s = Some true →
            MovieDetails.reviesLoading (foldl MovieDetails.step s actions) = Some true)
    as Hkept.
  { intros s actions. revert s.
    induction actions as [|a actions IH]; intros s Hs; [done|].
    cbn [foldl]. apply IH. rewrite step_reviesLoading by done. by destruct (_ === _). }
  split_and!.
  - intros s a s'. by apply reducer_reviesLoading_exact.
  - intros s actions. revert s.
    induction actions as [|a actions IH]; intros s Hnone; [done|].
    cbn [foldl]. rewrite IH by (intros b Hb; apply Hnone; by right).
    rewrite step_reviesLoading by done.
    destruct (String.eqb_spec (type a) FETCH_MORE_REVIEWS_REQUEST) as [Heq|_]; [|done].
    exfalso. by apply (Hnone a); [left|].
  - intros s actions. revert s.
    induction actions as [|b actions IH]; intros s a Ha Hty.
    { by apply elem_of_nil in Ha. }
    cbn [foldl]. apply elem_of_cons in Ha as [<-|Ha]; [|by eapply IH].
    apply Hkept. rewrite step_reviesLoading by done. by rewrite Hty, String.eqb_refl.
  - induction 1 as [|s a s' _ IH Hstep]; [by left|].
    destruct (reducer_reviesLoading _ _ _ Hstep) as [-> | ->]; [exact IH|by right].
  - exact Hkept.
Qed.

Lemma reviesLoading_is_never_reset_witness :
  let before := [mkAction "CLEAR_CURRENT_MOVIE" JUndefined;
                 mkAction "FETCH_MORE_REVIEWS_FAILURE" (JObj [("error", JStr "x")])] in
  let request := mkAction "FETCH_MORE_REVIEWS_REQUEST" JUndefined in
  distinct named_types
  ∧ MovieDetails.reviesLoading
      (foldl (MovieDetails.step (T:=named_types)) MovieDetails.initialState before) = None
  ∧ MovieDetails.reviesLoading
      (foldl (MovieDetails.step (T:=named_types)) MovieDetails.initialState
         (before ++ request :: before)) = Some true.
Proof.
  intros before request.
  destruct (reviesLoading_is_never_reset (T:=named_types) named_types_distinct)
    as (_ & Habsent & Hset & _).
  assert (∀ a, a ∈ before → type a ≠ "FETCH_MORE_REVIEWS_REQUEST") as Hnone.
  { intros a Ha. apply list_elem_of_In in Ha. destruct Ha as [<-|[<-|[]]]; discriminate. }
  assert (request ∈ before ++ request :: before) as Hin.
  { apply list_elem_of_In. right. right. left. reflexivity. }
  split_and!; [exact named_types_distinct| |].
  - exact (Habsent MovieDetails.initialState before Hnone).
  - exact (Hset MovieDetails.initialState (before ++ request :: before) request Hin eq_refl).
Defined.

(** ** The thunks of the details slice *)

Section DetailsThunks.
Import Store.
Context {T : ActionTypes}.
Implicit Types (w : World).

(** The details slice after the request of the full details. *)
Lemma dispatch_full_details_request w :
  distinct T →
  dispatch (mkAction FETCH_MOVIE_FULL_DETAILS_REQUEST JUndefined) w
  = Normal (set_store
              {| movieCache := movieCache (store w);
                 movieDetails :=
                   {| MovieDetails.current := MovieDetails.current (movieDetails (store w));
                      MovieDetails.reviews := MovieDetails.reviews (movieDetails (store w));
                      MovieDetails.loading := true;
                      MovieDetails.reviewsLoading :=
                        MovieDetails.reviewsLoading (movieDetails (store w));
                      MovieDetails.error := JNull;
                      MovieDetails.reviesLoading :=
                        MovieDetails.reviesLoading (movieDetails (store w)) |} |} w).
Proof.
  intros Hd. unfold dispatch, rootReducer, MovieCache.movieCacheReducer.
  cbn [type payload]. type_eqb Hd. cbn [mbind completion_bind mret completion_ret].
  unfold MovieDetails.movieDetailsReducer. cbn [type payload]. by type_eqb Hd.
Qed.


Lemma dispatch_more_reviews_request w :
  distinct T →
  dispatch (mkAction FETCH_MORE_REVIEWS_REQUEST JUndefined) w
  = Normal (set_store
              {| movieCache := movieCache (store w);
                 movieDetails :=
                   {| MovieDetails.current := MovieDetails.current (movieDetails (store w));
                      MovieDetails.reviews := MovieDetails.reviews (movieDetails (store w));
                      MovieDetails.loading := MovieDetails.loading (movieDetails (store w));
                      MovieDetails.reviewsLoading :=
                        MovieDetails.reviewsLoading (movieDetails (store w));
                      MovieDetails.error := MovieDetails.error (movieDetails (store w));
                      MovieDetails.reviesLoading := Some true |} |} w).
Proof.
  intros Hd. unfold dispatch, rootReducer, MovieCache.movieCacheReducer.
  cbn [type payload]. type_eqb Hd. cbn [mbind completion_bind mret completion_ret].
  by rewrite reducer_more_reviews_request.
Qed.

Lemma dispatch_more_reviews_failure p w :
  distinct T →
  dispatch (mkAction FETCH_MORE_REVIEWS_FAILURE p) w
  = Normal (set_store
              {| movieCache := movieCache (store w);
                 movieDetails :=
                   {| MovieDetails.current := MovieDetails.current (movieDetails (store w));
                      MovieDetails.reviews := MovieDetails.reviews (movieDetails (store w));
                      MovieDetails.loading := MovieDetails.loading (movieDetails (store w));
                      MovieDetails.reviewsLoading := false;
                      MovieDetails.error := MovieDetails.error (movieDetails (store w));
                      MovieDetails.reviesLoading :=
                        MovieDetails.reviesLoading (movieDetails (store w)) |} |} w).
Proof.
  intros Hd. unfold dispatch, rootReducer, MovieCache.movieCacheReducer.
  cbn [type payload]. type_eqb Hd. cbn [mbind completion_bind mret completion_ret].
  unfold MovieDetails.movieDetailsReducer. cbn [type payload]. by type_eqb Hd.
Qed.

Lemma dispatch_moreReviewsSuccess movieId revs pg total w :
  distinct T →
  dispatch (MovieDetails.moreReviewsSuccess movieId revs pg total) w
  = Normal (set_store
              {| movieCache := movieCache (store w);
                 movieDetails :=
                   {| MovieDetails.current :=
                        payload (MovieDetails.moreReviewsSuccess movieId revs pg total);
                      MovieDetails.reviews :=
                        <["undefined" :=
                           {| MovieDetails.items := revs;
                              MovieDetails.page := JNum 1;
                              MovieDetails.totalPages := JUndefined |}]>
                          (MovieDetails.reviews (movieDetails (store w)));
                      MovieDetails.loading := false;
                      MovieDetails.reviewsLoading :=
                        MovieDetails.reviewsLoading (movieDetails (store w));
                      MovieDetails.error := MovieDetails.error (movieDetails (store w));
                      MovieDetails.reviesLoading :=
                        MovieDetails.reviesLoading (movieDetails (store w)) |} |} w).
Proof.
  intros Hd.
  assert (∀ now mc, MovieCache.movieCacheReducer now mc
                      (MovieDetails.moreReviewsSuccess movieId revs pg total) = Normal mc)
    as Hcache.
  { intros now mc. unfold MovieCache.movieCacheReducer, MovieDetails.moreReviewsSuccess.
    cbn [type payload]. by type_eqb Hd. }
  unfold dispatch, rootReducer. rewrite Hcache. cbn [mbind completion_bind].
  by rewrite reducer_moreReviewsSuccess.
Qed.

End DetailsThunks.



(** X17.  [fetchMovieFullDetails] asks one thing at a time: when the request
    for the details fails, the one for the reviews is never sent.  The
    promise resolves, [loading] is cleared, the message of the error is
    recorded, and the movie shown and the reviews are as before. *)
Theorem fetchMovieFullDetails_details_failure {T : ActionTypes} (Hd : distinct T)
    (genv : string → Binding) (tmdb : TMDBApiBase) (movieId : JsValue)
    (w : Store.World) (r1 : FetchResult) (e : JsError) :
  makeRequest_settle r1 = Abrupt e →
  let p1 := Store.run genv (Store.fetchMovieFullDetails tmdb movieId) w in
  let p2 := Store.settle genv p1.1 r1 p1.2 in
  let before := Store.movieDetails (Store.store w) in
  p2.1 = Store.Resolved JUndefined
  ∧ Store.network p2.2
    = Store.network w
      ++ [getMovieDetails tmdb movieId (JStr "ko-KR")
            (JStr "credits,videos,images,keywords,release_dates")]
  ∧ Store.movieDetails (Store.store p2.2)
    = {| MovieDetails.current := MovieDetails.current before;
         MovieDetails.reviews := MovieDetails.reviews before;
         MovieDetails.loading := false;
         MovieDetails.reviewsLoading := MovieDetails.reviewsLoading before;
         MovieDetails.error := JStr (err_message e);
         MovieDetails.reviesLoading := MovieDetails.reviesLoading before |}.
Proof.
  intros Hr1. cbn zeta.
  unfold Store.fetchMovieFullDetails. cbn [Store.run].
  rewrite dispatch_full_details_request by done. cbn [Store.run fst snd Store.settle].
  rewrite Hr1. unfold Store.fetchMovieFullDetails_catch. cbn [Store.run].
  rewrite dispatch_full_details_failure by done.
  cbn [Store.run fst snd Store.store Store.network Store.send Store.set_store
       Store.movieCache Store.movieDetails MovieDetails.current MovieDetails.reviews
       MovieDetails.reviewsLoading MovieDetails.reviesLoading].
  done.
Qed.

Lemma fetchMovieFullDetails_details_failure_witness :
  let tmdb := new_TMDBApiBase "KEY" in
  let w := {| Store.store := Store.initialState; Store.clock := 1000; Store.network := [] |} in
  let r1 := HttpResponse false 404 (Normal JNull) in
  let p1 := Store.run (T:=named_types) browser_globals
              (Store.fetchMovieFullDetails (T:=named_types) tmdb (JNum 550)) w in
  let p2 := Store.settle (T:=named_types) browser_globals p1.1 r1 p1.2 in
  distinct named_types
  ∧ makeRequest_settle r1 = Abrupt (mkError "Error" "HTTP error! status: 404")
  ∧ length (Store.network p2.2) = 1%nat
  ∧ MovieDetails.error (Store.movieDetails (Store.store p2.2))
    = JStr "HTTP error! status: 404".
Proof.
  intros tmdb w r1 p1 p2.
  destruct (fetchMovieFullDetails_details_failure (T:=named_types) named_types_distinct
              browser_globals tmdb (JNum 550) w r1 _ eq_refl) as (_ & Hnet & Hdetails).
  split_and!; [exact named_types_distinct|reflexivity| |].
  - exact (f_equal length Hnet).
  - exact (f_equal MovieDetails.error Hdetails).
Defined.

(** X18.  [fetchMoreReviews] when its request succeeds: it sends one request,
    for the page asked, and resolves with [undefined].  In the store the
    payload of its action takes the place of the movie shown ([current]),
    the reviews of the answer are stored under the key "undefined" at page 1,
    [loading] is cleared and [reviewsLoading] is as it was.  When the answer
    is [null] the failure action is dispatched instead: the promise resolves
    all the same, and [current] and [reviews] are as before. *)
Theorem fetchMoreReviews_success {T : ActionTypes} (Hd : distinct T)
    (genv : string → Binding) (tmdb : TMDBApiBase) (movieId pg : JsValue)
    (w : Store.World) (r : FetchResult) (response : JsValue) :
  makeRequest_settle r = Normal response →
  let p1 := Store.run genv (Store.fetchMoreReviews tmdb movieId pg) w in
  let p2 := Store.settle genv p1.1 r p1.2 in
  let before := Store.movieDetails (Store.store w) in
  let after := Store.movieDetails (Store.store p2.2) in
  p2.1 = Store.Resolved JUndefined
  ∧ Store.network p2.2 = Store.network w ++ [getMovieReviews tmdb movieId pg JUndefined]
  ∧ MovieDetails.reviesLoading after = Some true
  ∧ MovieDetails.error after = MovieDetails.error before
  ∧ (∀ results p total,
       get_prop response "results" = Normal results →
       get_prop response "page" = Normal p →
       get_prop response "total_pages" = Normal total →
       MovieDetails.current after
       = JObj [("movieId", movieId); ("reviews", results); ("page", p); ("totalPages", total)]
       ∧ MovieDetails.reviews after
         = <["undefined" := {| MovieDetails.items := results;
                               MovieDetails.page := JNum 1;
                               MovieDetails.totalPages := JUndefined |}]>
             (MovieDetails.reviews before)
       ∧ MovieDetails.loading after = false
       ∧ MovieDetails.reviewsLoading after = MovieDetails.reviewsLoading before)
  ∧ (nullish response = true →
       MovieDetails.current after = MovieDetails.current before
       ∧ MovieDetails.reviews after = MovieDetails.reviews before
       ∧ MovieDetails.reviewsLoading after = false).
Proof.
  intros Hr. cbn zeta.
  unfold Store.fetchMoreReviews. cbn [Store.run].
  rewrite dispatch_more_reviews_request by done. cbn [Store.run fst snd Store.settle].
  rewrite Hr. unfold Store.fetchMoreReviews_then.
  destruct (nullish response) eqn:Hn.
  - destruct (proj2 (get_prop_throws response "results") Hn) as [e He].
    rewrite He. cbn [mbind completion_bind]. unfold Store.fetchMoreReviews_catch.
    cbn [Store.run]. rewrite dispatch_more_reviews_failure by done.
    cbn [Store.run fst snd Store.store Store.network Store.send Store.set_store
         Store.movieCache Store.movieDetails MovieDetails.current MovieDetails.reviews
         MovieDetails.reviewsLoading MovieDetails.reviesLoading MovieDetails.error
         MovieDetails.loading].
    split_and!; [done..| |done]. intros results p total Hres. congruence.
  - destruct (get_prop_normal response "results" Hn) as [results Hres].
    destruct (get_prop_normal response "page" Hn) as [p Hp].
    destruct (get_prop_normal response "total_pages" Hn) as [total Htot].
    rewrite Hres, Hp, Htot. cbn [mbind completion_bind mret completion_ret Store.run].
    rewrite dispatch_moreReviewsSuccess by done.
    cbn [Store.run fst snd Store.store Store.network Store.send Store.set_store
         Store.movieCache Store.movieDetails MovieDetails.current MovieDetails.reviews
         MovieDetails.reviewsLoading MovieDetails.reviesLoading MovieDetails.error
         MovieDetails.loading].
    split_and!; [done..| |done]. by intros results' p' total' [= <-] [= <-] [= <-].
Qed.

Lemma fetchMoreReviews_success_witness :
  let tmdb := new_TMDBApiBase "KEY" in
  let shown := JObj [("id", JNum 550); ("title", JStr "Fight Club")] in
  let details := {| MovieDetails.current := shown;
                    MovieDetails.reviews := ∅;
                    MovieDetails.loading := false;
                    MovieDetails.reviewsLoading := false;
                    MovieDetails.error := JNull;
                    MovieDetails.reviesLoading := None |} in
  let w := {| Store.store := {| Store.movieCache := MovieCache.initialState;
                                Store.movieDetails := details |};
              Store.clock := 1000; Store.network := [] |} in
  let response := JObj [("page", JNum 2); ("results", JArr [JStr "review 21"]);
                        ("total_pages", JNum 3)] in
  let p1 := Store.run (T:=named_types) browser_globals
              (Store.fetchMoreReviews (T:=named_types) tmdb (JNum 550) (JNum 2)) w in
  let p2 := Store.settle (T:=named_types) browser_globals p1.1
              (HttpResponse true 200 (Normal response)) p1.2 in
  distinct named_types
  ∧ p2.1 = Store.Resolved JUndefined
  ∧ MovieDetails.current (Store.movieDetails (Store.store p2.2))
    = JObj [("movieId", JNum 550); ("reviews", JArr [JStr "review 21"]); ("page", JNum 2);
            ("totalPages", JNum 3)].
Proof.
  intros tmdb shown details w response p1 p2.
  destruct (fetchMoreReviews_success (T:=named_types) named_types_distinct browser_globals
              tmdb (JNum 550) (JNum 2) w (HttpResponse true 200 (Normal response)) response
              eq_refl) as (Hres & _ & _ & _ & Hstored & _).
  split_and!; [exact named_types_distinct|exact Hres|].
  exact (proj1 (Hstored (JArr [JStr "review 21"]) (JNum 2) (JNum 3) eq_refl eq_refl eq_refl)).
Defined.

(** X19.  The two slices keep to themselves: the actions of the cache
    (request, success, failure, clear, eviction) never change the details
    slice, and the actions of the details slice never change the cache. *)
Theorem slices_are_independent {T : ActionTypes} (Hd : distinct T)
    (now : Z) (state state' : Store.RootState) (a : Action) :
  Store.rootReducer now state a = Normal state' →
  (type a ∈ [FETCH_MOVIE_DETAIL_REQUEST; FETCH_MOVIE_DETAIL_SUCCESS;
             FETCH_MOVIE_DETAIL_FAILURE; CLEAR_MOVIE_CACHE; REMOVE_FROM_CACHE] →
   Store.movieDetails state' = Store.movieDetails state)
  ∧ (type a ∈ [FETCH_MOVIE_FULL_DETAILS_REQUEST; FETCH_MOVIE_FULL_DETAILS_SUCCESS;
               FETCH_MOVIE_FULL_DETAILS_FAILURE; FETCH_MORE_REVIEWS_REQUEST;
               FETCH_MORE_REVIEWS_SUCCESS; FETCH_MORE_REVIEWS_FAILURE;
               CLEAR_CURRENT_MOVIE] →
     Store.movieCache state' = Store.movieCache state).
Proof.
  unfold Store.rootReducer. destruct a as [ty p]. cbn [type].
  destruct (MovieCache.movieCacheReducer now (Store.movieCache state) (mkAction ty p))
    as [mc|e] eqn:Hc; [|done]. cbn [mbind completion_bind].
  destruct (MovieDetails.movieDetailsReducer (Store.movieDetails state) (mkAction ty p))
    as [md|e] eqn:Hm; [|done]. cbn [mbind completion_bind].
  intros [= <-]. cbn [Store.movieCache Store.movieDetails].
  split; intros Hty.
  - clear Hc. revert Hm. unfold MovieDetails.movieDetailsReducer. cbn [type].
    repeat (apply elem_of_cons in Hty as [->|Hty]); try (by apply elem_of_nil in Hty);
      type_eqb Hd; by intros [= ->].
  - clear Hm. revert Hc. unfold MovieCache.movieCacheReducer. cbn [type].
    repeat (apply elem_of_cons in Hty as [->|Hty]); try (by apply elem_of_nil in Hty);
      type_eqb Hd; by intros [= ->].
Qed.

Lemma slices_are_independent_witness :
  let a := MovieCache.fetchMovieDetailSuccess (T:=named_types) (JNum 550) JNull in
  distinct named_types
  ∧ ∃ state',
      Store.rootReducer (T:=named_types) 1000 Store.initialState a = Normal state'
      ∧ Store.movieDetails state' = MovieDetails.initialState.
Proof.
  intros a. split; [exact named_types_distinct|].
  exists {| Store.movieCache :=
              {| MovieCache.details := {["550" := JNum 1000]};
                 MovieCache.lastFetched := ∅;
                 MovieCache.loading := {["550" := false]};
                 MovieCache.error := JNull |};
            Store.movieDetails := MovieDetails.initialState |}.
  assert (Store.rootReducer (T:=named_types) 1000 Store.initialState a
          = Normal {| Store.movieCache :=
                        {| MovieCache.details := {["550" := JNum 1000]};
                           MovieCache.lastFetched := ∅;
                           MovieCache.loading := {["550" := false]};
                           MovieCache.error := JNull |};
                      Store.movieDetails := MovieDetails.initialState |}) as Hred
    by reflexivity.
  split; [exact Hred|].
  refine (proj1 (slices_are_independent (T:=named_types) named_types_distinct 1000
                   Store.initialState _ a Hred) _).
  apply list_elem_of_In. right. left. reflexivity.
Defined.

(** ** The banner carousel *)

Section Banners.
Import BannerCarousel Endpoints.
Implicit Types (l kept : list JsValue) (m : JsValue).

Lemma mapM_length (f : JsValue → Completion JsValue) l bs :
  mapM f l = Normal bs → length bs = length l.
Proof.
  revert bs. induction l as [|x l IH]; intros bs; cbn [mapM].
  - by intros [= <-].
  - intros Hm. bind_inv Hm. subst bs. cbn [length]. f_equal. by apply IH.
Qed.

Lemma mapM_lookup (f : JsValue → Completion JsValue) l bs i x :
  mapM f l = Normal bs → l !! i = Some x → ∃ b, bs !! i = Some b ∧ f x = Normal b.
Proof.
  revert bs i. induction l as [|y l IH]; intros bs i; cbn [mapM]; [done|].
  intros Hm Hi. bind_inv Hm. subst bs. destruct i as [|i].
  - injection Hi as ->. eauto.
  - cbn in Hi. cbn. by eapply IH.
Qed.

Lemma mapM_normal (f : JsValue → Completion JsValue) l :
  (∀ x, x ∈ l → ∃ b, f x = Normal b) → ∃ bs, mapM f l = Normal bs.
Proof.
  induction l as [|x l IH]; intros Hl; cbn [mapM]; [by eexists|].
  destruct (Hl x) as [b Hb]; [left|]. rewrite Hb.
  destruct IH as [bs Hbs]; [intros y Hy; apply Hl; by right|]. rewrite Hbs.
  by eexists.
Qed.

(** The backdrop the callbacks read from a movie. *)
Lemma filter_array_backdrop l :
  (∀ m, m ∈ l → nullish m = false) →
  ∃ kept, filter_array has_backdrop l = Normal kept
          ∧ kept = List.filter
                     (λ m, match get_prop m "backdrop_path" with
                           | Normal x => truthy x
                           | Abrupt _ => false
                           end) l.
Proof.
  induction l as [|m l IH]; intros Hl; cbn [filter_array List.filter]; [by eexists|].
  destruct (get_prop_normal m "backdrop_path") as [x Hx]; [apply Hl; left|].
  destruct IH as (kept & Hkept & ->); [intros y Hy; apply Hl; by right|].
  unfold has_backdrop in *. rewrite Hx. cbn [mbind completion_bind].
  rewrite Hkept. cbn [mbind completion_bind mret completion_ret].
  eexists. split; [done|]. by destruct (truthy x).
Qed.

Lemma filter_array_sub l kept m :
  filter_array has_backdrop l = Normal kept → m ∈ kept →
  ∃ x, get_prop m "backdrop_path" = Normal x ∧ truthy x = true.
Proof.
  revert kept. induction l as [|y l IH]; intros kept; cbn [filter_array].
  - intros [= <-] Hm. by apply elem_of_nil in Hm.
  - intros Hf Hm. bind_inv Hf. subst kept.
    match goal with
    | Hy : has_backdrop y = Normal ?v |- _ =>
        destruct (truthy v) eqn:Hv; [apply elem_of_cons in Hm as [->|Hm]; [by eexists|]|]
    end; by eapply IH.
Qed.

Lemma banner_img m x :
  get_prop m "backdrop_path" = Normal x →
  ∃ b, banner m = Normal b
       ∧ get_prop b "img" = Normal (JStr ("https://image.tmdb.org/t/p/w1280" +:+ to_string x))
       ∧ get_prop b "mobileImg"
         = Normal (JStr ("https://image.tmdb.org/t/p/w780" +:+ to_string x)).
Proof.
  intros Hx.
  assert (nullish m = false) as Hm.
  { destruct (nullish m) eqn:Hn; [|done].
    destruct (proj2 (get_prop_throws m "backdrop_path") Hn) as [e He]. congruence. }
  unfold banner.
  destruct (get_prop_normal m "id" Hm) as [v1 ->]. cbn [mbind completion_bind].
  rewrite Hx. cbn [mbind completion_bind].
  destruct (get_prop_normal m "title" Hm) as [v2 ->]. cbn [mbind completion_bind].
  destruct (get_prop_normal m "overview" Hm) as [v3 ->]. cbn [mbind completion_bind].
  destruct (get_prop_normal m "release_date" Hm) as [v4 ->]. cbn [mbind completion_bind].
  destruct (get_prop_normal m "vote_average" Hm) as [v5 ->].
  cbn [mbind completion_bind mret completion_ret]. eexists. split; [done|]. done.
Qed.

Lemma take_elem_of (l : list JsValue) n m : m ∈ take n l → m ∈ l.
Proof.
  intros Hm. apply list_elem_of_lookup in Hm as [i Hi].
  apply lookup_take_Some in Hi as [Hi _]. by apply list_elem_of_lookup_2 in Hi.
Qed.

(** The banners of an answer are at most five and never none. *)
Lemma movieBanners_length response bs :
  movieBanners response = Normal bs → (1 ≤ length bs ≤ 5)%nat.
Proof.
  unfold movieBanners. intros Hb. bind_inv Hb.
  destruct (negb _); [done|]. bind_inv Hb.
  match goal with
  | Hm : mapM banner (take 5 ?kept) = Normal ?l |- _ =>
      apply mapM_length in Hm; rewrite length_take in Hm;
      destruct (Nat.eqb_spec (length l) 0); [done|injection Hb as <-; lia]
  end.
Qed.

(** A numeral never starts with the letter r, so no index of an array is
    the key [results]. *)
Lemma pretty_N_go_ne_r x s s' :
  s ≠ "r" +:+ s' → pretty_N_go x s ≠ "r" +:+ s'.
Proof.
  revert s. induction (N.lt_wf_0 x) as [x _ IH]; intros s ?.
  assert (x = 0 ∨ 0 < x)%N as [->|?] by lia.
  - by rewrite pretty_N_go_0.
  - rewrite pretty_N_go_step by done. apply IH.
    { by apply N.div_lt. }
    unfold pretty_N_char. by repeat case_match.
Qed.

Lemma pretty_nat_ne_results (n : nat) : pretty n ≠ "results".
Proof.
  change (pretty n) with (pretty (N.of_nat n)). unfold pretty, pretty_N.
  destruct (decide (N.of_nat n = 0)%N); [done|].
  by apply (pretty_N_go_ne_r _ "" "esults").
Qed.

Lemma get_prop_array_results l : get_prop (JArr l) "results" = Normal JUndefined.
Proof.
  cbn [get_prop]. cbn [String.eqb Ascii.eqb Bool.eqb]. unfold array_index.
  destruct (list_find _ _) as [[i j]|] eqn:Hfind; [|done].
  apply list_find_Some in Hfind as (_ & Hp & _). by apply pretty_nat_ne_results in Hp.
Qed.

End Banners.

(** X20.  One round of [fetchMovies] of the banner carousel, from any state
    of the component: it asks for the upcoming movies with the default page
    and language and shows the loading state; when the answer has arrived
    the loading state is over and either there are between one and five new
    banners and no error, or the banners are the ones from before and the
    error is a message that is not empty. *)
Theorem fetchMovies_round (api : TMDBApiBase) (state : BannerCarousel.State)
    (r : FetchResult) :
  let started := BannerCarousel.fetchMovies_start api state in
  let settled := BannerCarousel.fetchMovies_settle started.1 r in
  url started.2
  = {| href := baseUrl api +:+ "/movie/upcoming";
       searchParams := [("api_key", apiKey api); ("page", "1"); ("language", "ko-KR")] |}
  ∧ BannerCarousel.loading started.1 = true
  ∧ BannerCarousel.loading settled = false
  ∧ ((BannerCarousel.error settled = JNull
      ∧ (1 ≤ length (BannerCarousel.banners settled) ≤ 5)%nat)
     ∨ (BannerCarousel.banners settled = BannerCarousel.banners state
        ∧ ∃ message, BannerCarousel.error settled = JStr message ∧ message ≠ "")).
Proof.
  cbn zeta. unfold BannerCarousel.fetchMovies_start, BannerCarousel.fetchMovies_settle.
  cbn [fst snd BannerCarousel.banners BannerCarousel.error BannerCarousel.loading].
  split_and!.
  - unfold Endpoints.getUpcomingMovies, makeRequest. cbn [url default_param truthy].
    by rewrite request_url_GET_full.
  - done.
  - by destruct (makeRequest_settle r ≫= BannerCarousel.movieBanners).
  - destruct (makeRequest_settle r ≫= BannerCarousel.movieBanners) as [bs|e] eqn:Hb.
    + left. cbn [BannerCarousel.banners BannerCarousel.error]. split; [done|].
      apply bind_Normal in Hb as (response & _ & Hb).
      by apply movieBanners_length in Hb.
    + right. cbn [BannerCarousel.banners BannerCarousel.error]. split; [done|].
      unfold Endpoints.js_or. cbn [truthy].
      destruct (String.eqb_spec (err_message e) "") as [Heq|Hne]; cbn [negb].
      * eexists. split; [done|]. discriminate.
      * eexists. split; [done|]. done.
Qed.

(** X21.  The banners of an answer whose [results] is an array of movies
    (none of them [null]): they are built from the first five movies that
    have a backdrop, in the order of the answer, each with the address of
    its backdrop at width 1280 and, for small screens, at width 780; the
    movies without a backdrop are passed over, and when no movie has one the
    round ends with the error "표시할 영화가 없습니다". *)
Theorem banners_of_results (state : BannerCarousel.State) (r : FetchResult)
    (response : JsValue) (movies : list JsValue) :
  makeRequest_settle r = Normal response →
  get_prop response "results" = Normal (JArr movies) →
  (∀ m, m ∈ movies → nullish m = false) →
  let backdrop m :=
    match get_prop m "backdrop_path" with Normal x => x | Abrupt _ => JUndefined end in
  let chosen := take 5 (List.filter (λ m, truthy (backdrop m)) movies) in
  let settled := BannerCarousel.fetchMovies_settle state r in
  (chosen = [] →
   settled = {| BannerCarousel.banners := BannerCarousel.banners state;
                BannerCarousel.loading := false;
                BannerCarousel.error := JStr "표시할 영화가 없습니다" |})
  ∧ (chosen ≠ [] →
     BannerCarousel.error settled = BannerCarousel.error state
     ∧ length (BannerCarousel.banners settled) = length chosen
     ∧ ∀ i m, chosen !! i = Some m →
         ∃ b, BannerCarousel.banners settled !! i = Some b
              ∧ get_prop b "img"
                = Normal (JStr ("https://image.tmdb.org/t/p/w1280" +:+ to_string (backdrop m)))
              ∧ get_prop b "mobileImg"
                = Normal (JStr ("https://image.tmdb.org/t/p/w780" +:+ to_string (backdrop m)))).
Proof.
  intros Hr Hres Hmovies. cbn zeta.
  destruct (filter_array_backdrop movies Hmovies) as (kept & Hkept & Hfilter).
  assert (List.filter
            (λ m, truthy match get_prop m "backdrop_path" with
                         | Normal x => x | Abrupt _ => JUndefined end) movies = kept)
    as ->.
  { rewrite Hfilter. apply List.filter_ext. intros m. by destruct (get_prop m _). }
  assert (∀ m, m ∈ take 5 kept → ∃ x, get_prop m "backdrop_path" = Normal x) as Hchosen.
  { intros m Hm. apply take_elem_of in Hm.
    destruct (filter_array_sub _ _ _ Hkept Hm) as (x & Hx & _). by eexists. }
  destruct (mapM_normal BannerCarousel.banner (take 5 kept)) as [bs Hbs].
  { intros m Hm. destruct (Hchosen m Hm) as [x Hx].
    destruct (banner_img m x Hx) as (b & Hb & _). by eexists. }
  pose proof (mapM_length _ _ _ Hbs) as Hlen.
  unfold BannerCarousel.fetchMovies_settle. rewrite Hr. cbn [mbind completion_bind].
  unfold BannerCarousel.movieBanners. rewrite Hres. cbn [mbind completion_bind].
  unfold Endpoints.js_or at 2. cbn [truthy]. unfold Endpoints.js_or. cbn [truthy].
  cbn [BannerCarousel.isArray negb BannerCarousel.elements].
  rewrite Hkept. cbn [mbind completion_bind]. rewrite Hbs. cbn [mbind completion_bind].
  split.
  - intros Hnil. rewrite Hnil in Hlen. destruct bs; [|done]. reflexivity.
  - intros Hne. destruct (Nat.eqb_spec (length bs) 0) as [H0|_].
    { rewrite H0 in Hlen. by destruct (take 5 kept). }
    cbn [BannerCarousel.banners BannerCarousel.error]. split_and!; [done..|].
    intros i m Hi.
    destruct (mapM_lookup _ _ _ _ _ Hbs Hi) as (b & Hb & Hbanner).
    destruct (Hchosen m) as [x Hx]; [by apply list_elem_of_lookup_2 in Hi|].
    destruct (banner_img m x Hx) as (b' & Hb' & Himg & Hmobile).
    rewrite Hx. exists b. split; [done|].
    rewrite Hb' in Hbanner. injection Hbanner as <-. by split.
Qed.

Lemma banners_of_results_witness :
  let movies := [JObj [("id", JNum 1); ("backdrop_path", JStr "/a.jpg")];
                 JObj [("id", JNum 2); ("backdrop_path", JNull)];
                 JObj [("id", JNum 3); ("backdrop_path", JStr "/c.jpg")]] in
  let response := JObj [("page", JNum 1); ("results", JArr movies)] in
  let settled := BannerCarousel.fetchMovies_settle BannerCarousel.initialState
                   (HttpResponse true 200 (Normal response)) in
  (∀ m, m ∈ movies → nullish m = false)
  ∧ length (BannerCarousel.banners settled) = 2%nat
  ∧ ∃ b, BannerCarousel.banners settled !! 1%nat = Some b
         ∧ get_prop b "img" = Normal (JStr "https://image.tmdb.org/t/p/w1280/c.jpg").
Proof.
  intros movies response settled.
  assert (∀ m, m ∈ movies → nullish m = false) as Hmovies.
  { intros m Hm. apply list_elem_of_In in Hm.
    destruct Hm as [<-|[<-|[<-|[]]]]; reflexivity. }
  destruct (banners_of_results BannerCarousel.initialState
              (HttpResponse true 200 (Normal response)) response movies
              eq_refl eq_refl Hmovies) as [_ Hsome].
  destruct Hsome as (_ & Hlen & Hbanners); [discriminate|].
  split_and!; [exact Hmovies|exact Hlen|].
  destruct (Hbanners 1%nat (JObj [("id", JNum 3); ("backdrop_path", JStr "/c.jpg")]) eq_refl)
    as (b & Hb & Himg & _).
  exists b. split; [exact Hb|exact Himg].
Defined.

(** X22.  What the carousel shows when a round fails, by cause: the message
    of the error of the client when the request fails (the status of an HTTP
    failure); "유효하지 않은 API 응답입니다" when the answer is an object
    without [results]; the message of the [TypeError] when one of the
    results is [null].  An answer that is itself an array is read as the
    list of the movies. *)
Theorem carousel_failures (state : BannerCarousel.State) :
  let failed message :=
    {| BannerCarousel.banners := BannerCarousel.banners state;
       BannerCarousel.loading := false;
       BannerCarousel.error := JStr message |} in
  (∀ status body,
     BannerCarousel.fetchMovies_settle state (HttpResponse false status body)
     = failed ("HTTP error! status: " +:+ pretty status))
  ∧ (∀ fields,
       truthy (default JUndefined (assoc "results" fields)) = false →
       BannerCarousel.fetchMovies_settle state (HttpResponse true 200 (Normal (JObj fields)))
       = failed "유효하지 않은 API 응답입니다")
  ∧ (∀ before after,
       (∀ m, m ∈ before → nullish m = false) →
       BannerCarousel.fetchMovies_settle state
         (HttpResponse true 200
            (Normal (JObj [("results", JArr (before ++ JNull :: after))])))
       = failed "Cannot read properties of null (reading 'backdrop_path')")
  ∧ (∀ movies,
       BannerCarousel.fetchMovies_settle state (HttpResponse true 200 (Normal (JArr movies)))
       = BannerCarousel.fetchMovies_settle state
           (HttpResponse true 200 (Normal (JObj [("results", JArr movies)])))).
Proof.
  cbn zeta. split_and!.
  - intros status body. unfold BannerCarousel.fetchMovies_settle.
    cbn [makeRequest_settle negb mbind completion_bind err_message].
    unfold Endpoints.js_or. cbn [truthy]. by destruct (pretty status).
  - intros fields Hres. unfold BannerCarousel.fetchMovies_settle.
    cbn [makeRequest_settle negb mbind completion_bind].
    unfold BannerCarousel.movieBanners. rewrite get_prop_object.
    cbn [mbind completion_bind]. unfold Endpoints.js_or. rewrite Hres. reflexivity.
  - intros before after Hbefore. unfold BannerCarousel.fetchMovies_settle.
    cbn [makeRequest_settle negb mbind completion_bind].
    unfold BannerCarousel.movieBanners. rewrite get_prop_object.
    cbn [assoc String.eqb Ascii.eqb Bool.eqb default from_option id mbind completion_bind].
    unfold Endpoints.js_or. cbn [truthy BannerCarousel.isArray negb BannerCarousel.elements].
    assert (∃ e, BannerCarousel.filter_array BannerCarousel.has_backdrop
                   (before ++ JNull :: after) = Abrupt e
                 ∧ err_message e = "Cannot read properties of null (reading 'backdrop_path')")
      as (e & -> & He).
    { induction before as [|m before IH]; cbn [app BannerCarousel.filter_array].
      - eexists. split; reflexivity.
      - destruct (get_prop_normal m "backdrop_path") as [x Hx]; [apply Hbefore; left|].
        destruct IH as (e & He & Hmsg); [intros y Hy; apply Hbefore; by right|].
        unfold BannerCarousel.has_backdrop in *. rewrite Hx. cbn [mbind completion_bind].
        rewrite He. by eexists. }
    cbn [mbind completion_bind]. rewrite He. reflexivity.
  - intros movies. unfold BannerCarousel.fetchMovies_settle.
    cbn [makeRequest_settle negb mbind completion_bind].
    unfold BannerCarousel.movieBanners. rewrite get_prop_object.
    cbn [assoc String.eqb Ascii.eqb Bool.eqb default from_option id mbind completion_bind].
    rewrite get_prop_array_results. cbn [mbind completion_bind].
    unfold Endpoints.js_or. cbn [truthy BannerCarousel.isArray negb]. done.
Qed.

Lemma carousel_failures_witness :
  let shown :=
    BannerCarousel.fetchMovies_settle BannerCarousel.initialState
      (HttpResponse true 200
         (Normal (JObj [("results",
                         JArr [JObj [("id", JNum 1); ("backdrop_path", JStr "/a.jpg")];
                               JNull])]))) in
  BannerCarousel.banners shown = []
  ∧ BannerCarousel.error shown
    = JStr "Cannot read properties of null (reading 'backdrop_path')"
  ∧ BannerCarousel.error
      (BannerCarousel.fetchMovies_settle BannerCarousel.initialState
         (HttpResponse true 200 (Normal (JObj [("page", JNum 1)]))))
    = JStr "유효하지 않은 API 응답입니다".
Proof.
  intros shown.
  destruct (carousel_failures BannerCarousel.initialState) as (_ & Hobject & Hnull & _).
  assert (∀ m, m ∈ [JObj [("id", JNum 1); ("backdrop_path", JStr "/a.jpg")]] →
               nullish m = false) as Hbefore.
  { intros m Hm. apply list_elem_of_In in Hm. destruct Hm as [<-|[]]. reflexivity. }
  pose proof (Hnull [JObj [("id", JNum 1); ("backdrop_path", JStr "/a.jpg")]] [] Hbefore)
    as Hshown.
  pose proof (Hobject [("page", JNum 1)] eq_refl) as Hpage.
  split_and!.
  - unfold shown. cbn [app] in Hshown. by rewrite Hshown.
  - unfold shown. cbn [app] in Hshown. by rewrite Hshown.
  - by rewrite Hpage.
Defined.

(** X23.  The requests behind the thunks.  [getMovieDetails] asks for
    [/movie/<id>] with the [api_key], the [language] ("ko-KR" when omitted,
    dropped when [null]) and [append_to_response] exactly when it is truthy;
    [getMovieReviews] asks for [/movie/<id>/reviews] with the [api_key], the
    [page] (1 when omitted) and the [language], which is "en-US" when
    omitted, not "ko-KR". *)
Theorem details_and_reviews_query (api : TMDBApiBase)
    (movieId language appendToResponse page : JsValue) :
  let shown k v := if nullish v then [] else [(k, to_string v)] in
  url (getMovieDetails api movieId language appendToResponse)
  = {| href := baseUrl api +:+ "/movie/" +:+ to_string movieId;
       searchParams :=
         [("api_key", apiKey api)]
         ++ shown "language" (default_param language (JStr "ko-KR"))
         ++ (if truthy appendToResponse
             then [("append_to_response", to_string appendToResponse)] else []) |}
  ∧ url (getMovieReviews api movieId page language)
    = {| href := baseUrl api +:+ "/movie/" +:+ to_string movieId +:+ "/reviews";
         searchParams :=
           [("api_key", apiKey api)]
           ++ shown "page" (default_param page (JNum 1))
           ++ shown "language" (default_param language (JStr "en-US")) |}.
Proof.
  cbn zeta. unfold getMovieDetails, getMovieReviews, makeRequest. cbn [url]. split.
  - destruct (truthy appendToResponse) eqn:Happend.
    + rewrite (truthy_default_param appendToResponse JNull Happend), Happend.
      pose proof (truthy_not_nullish appendToResponse Happend) as Hn.
      rewrite request_url_GET_full.
      unfold query_pair. cbn -[to_string default_param nullish].
      destruct (nullish (default_param language _)) eqn:Hl;
        cbn -[to_string default_param nullish]; rewrite ?Hl, ?Hn; try done.
    + rewrite (falsy_default_param appendToResponse JNull Happend eq_refl).
      rewrite request_url_GET_full.
      unfold query_pair. cbn -[to_string default_param nullish].
      by destruct (nullish (default_param language _)).
  - rewrite request_url_GET_full.
    unfold query_pair. cbn -[to_string default_param nullish].
    by destruct (nullish (default_param page _)), (nullish (default_param language _)).
Qed.
